(** * Fundamentus FII screener: the data pipeline of [app.py]

    A shallow embedding of the acquisition, normalisation, filtering and
    per-segment aggregation code of [app.py], of its sidebar, key metrics
    and detail panel, and the properties its specification states about
    them.

    Conventions of the embedding.
    - A Python [float] is [NaN], a signed infinity, or a finite value kept
      as an exact rational: comparisons, sums and means are those of the
      real numbers, and rounding to 53 bits is left out.  [NaN] is pandas'
      missing value ("null").
    - A pandas column of text holds strings or missing cells
      ([option string]); any other raw cell is text or a number ([cell]).
    - A raised exception is a value of [exc]; the [try/except] of
      [buscar_dados_fundamentus] is the only handler.
    - The library calls are modelled from their documented behaviour:
      [str.replace], [float], [pd.to_numeric(errors='coerce')], [dropna],
      boolean indexing, [sort_values], [groupby(...).agg(...)], [min],
      [max], [mean], [iloc], [repr].  The sort
      behind [sort_values] is NumPy's [argsort] with the default kind
      (['quicksort'], not stable); it is a parameter of the functions that
      sort, constrained by what [argsort] documents.

    The file has the model first, then the definitions the statements are
    written with and the sample data, then the lemmas, and last the
    properties of the specification, each under the number of its claim
    (C1 to C10; those numbered X are further properties). *)

From Stdlib Require Import List String Ascii Bool Arith ZArith QArith Qreduction.
From Stdlib Require Import Lia Permutation Sorted DecimalString.
Import ListNotations.

Local Close Scope Q_scope.
Local Open Scope string_scope.
Local Open Scope list_scope.

(* ================================================================== *)
(** * Numbers *)

Module Float.

Inductive float : Type :=
| NaN
| Inf (negative : bool)
| Fin (q : Q).

(** A finite literal, in lowest terms. *)
Definition F (q : Q) : float := Fin (Qred q).

Definition isnan (x : float) : bool :=
  match x with NaN => true | _ => false end.

(** [x <= y]; false as soon as one side is [NaN]. *)
Definition fle (x y : float) : bool :=
  match x, y with
  | NaN, _ | _, NaN => false
  | Inf true, _ => true
  | _, Inf false => true
  | Inf false, _ => false
  | _, Inf true => false
  | Fin a, Fin b => Qle_bool a b
  end.

(** [x >= y]. *)
Definition fge (x y : float) : bool := fle y x.

(** [x < y]. *)
Definition flt (x y : float) : bool :=
  negb (isnan x) && negb (isnan y) && negb (fle y x).

(** [x > y]. *)
Definition fgt (x y : float) : bool := flt y x.

(** [x == y]. *)
Definition feq (x y : float) : bool := fle x y && fle y x.

Definition fadd (x y : float) : float :=
  match x, y with
  | NaN, _ | _, NaN => NaN
  | Inf s, Inf t => if Bool.eqb s t then Inf s else NaN
  | Inf s, Fin _ | Fin _, Inf s => Inf s
  | Fin a, Fin b => Fin (Qred (a + b))
  end.

(** [x / n] for a count [n]. *)
Definition fdiv_nat (x : float) (n : nat) : float :=
  match n with
  | O => match x with
         | Fin a => if Qeq_bool a 0 then NaN else Inf (negb (Qle_bool 0 a))
         | _ => x
         end
  | S _ => match x with
           | Fin a => Fin (Qred (a / inject_Z (Z.of_nat n)))
           | _ => x
           end
  end.

(** NumPy's sorting order on floats: [a < b || (b != b && a == a)], that
    is, the usual order with [NaN] after everything; here as [<=]. *)
Definition np_le (x y : float) : bool := fle x y || isnan y.

End Float.
Export Float.

(* ================================================================== *)
(** * Exceptions *)

Inductive exception : Type :=
| ValueError (msg : string)
| IndexError (msg : string)
| RequestException (msg : string).

(** [str(e)], the text interpolated by an f-string. *)
Definition str_of_exception (e : exception) : string :=
  match e with
  | ValueError m | IndexError m | RequestException m => m
  end.

Inductive exc (A : Type) : Type :=
| Raise (e : exception)
| Return (a : A).
Arguments Raise {A} e.
Arguments Return {A} a.

Definition bind {A B : Type} (m : exc A) (k : A -> exc B) : exc B :=
  match m with
  | Raise e => Raise e
  | Return a => k a
  end.

Notation "x <- m ;; k" := (bind m (fun x => k))
  (at level 61, m at next level, right associativity).

(** A Python loop or [Series.apply] over a column: the first exception
    raised stops it. *)
Fixpoint mapM {A B : Type} (f : A -> exc B) (l : list A) : exc (list B) :=
  match l with
  | [] => Return []
  | a :: l' => b <- f a ;; bs <- mapM f l' ;; Return (b :: bs)
  end.

(* ================================================================== *)
(** * Strings *)

Module Str.

(** [s.replace(old, new)] for a one-character [old], as in every call of
    [clean_percent]. *)
Fixpoint replace (old : ascii) (new : string) (s : string) : string :=
  match s with
  | EmptyString => EmptyString
  | String c s' =>
      if Ascii.eqb c old then new ++ replace old new s'
      else String c (replace old new s')
  end.

(** The ASCII characters that are blanks to [str.strip()] and to [float]:
    the space, [\t] to [\r], and the four separators [\x1c] to [\x1f]. *)
Definition is_space (c : ascii) : bool :=
  let n := nat_of_ascii c in
  Nat.eqb n 32 || (Nat.leb 9 n && Nat.leb n 13)
  || (Nat.leb 28 n && Nat.leb n 31).

Fixpoint lstrip (s : string) : string :=
  match s with
  | String c s' => if is_space c then lstrip s' else s
  | EmptyString => EmptyString
  end.

Fixpoint rstrip (s : string) : string :=
  match s with
  | String c s' =>
      match rstrip s' with
      | EmptyString => if is_space c then EmptyString else String c EmptyString
      | r => String c r
      end
  | EmptyString => EmptyString
  end.

Definition strip (s : string) : string := rstrip (lstrip s).


Fixpoint contains (c : ascii) (s : string) : bool :=
  match s with
  | EmptyString => false
  | String c' s' => Ascii.eqb c c' || contains c s'
  end.

Definition double_quote : ascii := ascii_of_nat 34.
Definition backslash : ascii := ascii_of_nat 92.

Definition hex_digit (n : nat) : ascii :=
  if Nat.ltb n 10 then ascii_of_nat (48 + n) else ascii_of_nat (87 + n).

(** One character inside [repr(s)], [s] delimited by [quote]. *)
Definition repr_char (quote c : ascii) : string :=
  let n := nat_of_ascii c in
  let esc (x : ascii) := String backslash (String x EmptyString) in
  if Ascii.eqb c quote || Ascii.eqb c backslash then esc c
  else if Nat.eqb n 9 then esc "t"%char
  else if Nat.eqb n 10 then esc "n"%char
  else if Nat.eqb n 13 then esc "r"%char
  else if Nat.ltb n 32 || Nat.eqb n 127 then
    String backslash
      (String "x"%char (String (hex_digit (n / 16))
                          (String (hex_digit (n mod 16)) EmptyString)))
  else String c EmptyString.

Fixpoint repr_body (quote : ascii) (s : string) : string :=
  match s with
  | EmptyString => EmptyString
  | String c s' => repr_char quote c ++ repr_body quote s'
  end.

(** [repr(s)]: between apostrophes, or between double quotes when [s] has
    an apostrophe and no double quote; the delimiter and the backslash
    are escaped, and so are the control characters.  Bytes outside ASCII
    are kept, as [repr] keeps a printable character. *)
Definition repr (s : string) : string :=
  let quote :=
    if contains "'" s && negb (contains double_quote s) then double_quote
    else "'"%char in
  String quote (repr_body quote s ++ String quote EmptyString).

Definition lower_char (c : ascii) : ascii :=
  let n := nat_of_ascii c in
  if Nat.leb 65 n && Nat.leb n 90 then ascii_of_nat (n + 32) else c.

Fixpoint lower (s : string) : string :=
  match s with
  | EmptyString => EmptyString
  | String c s' => String (lower_char c) (lower s')
  end.

End Str.

(* ================================================================== *)
(** * [float(str)]

    Python's grammar for the argument of [float]:
<<
    floatvalue  ::= [sign] (floatnumber | infinity | nan)
    floatnumber ::= number [exponent]
    number      ::= [digitpart] "." digitpart | digitpart ["."]
    exponent    ::= ("e" | "E") [sign] digitpart
    digitpart   ::= digit (["_"] digit)*
>>
    between optional blanks, [infinity] and [nan] in any letter case.
    Digits and blanks are the ASCII ones: the model is [float] on ASCII
    text ([Str.is_ascii]); [float] also reads the decimal digits and the
    blanks of other scripts.  A number too large for a [float], which
    Python makes an infinity, is kept as it is written. *)

Module PyFloat.

Definition digit_of (c : ascii) : option Z :=
  let n := nat_of_ascii c in
  if Nat.leb 48 n && Nat.leb n 57 then Some (Z.of_nat (n - 48)) else None.

(** [(["_"] digit)*]: the digits read and what is left. *)
Fixpoint digitpart_rest (s : string) : list Z * string :=
  match s with
  | EmptyString => ([], EmptyString)
  | String c s' =>
      match digit_of c with
      | Some d => let (ds, r) := digitpart_rest s' in (d :: ds, r)
      | None =>
          if Ascii.eqb c "_" then
            match s' with
            | String c2 s'' =>
                match digit_of c2 with
                | Some d => let (ds, r) := digitpart_rest s'' in (d :: ds, r)
                | None => ([], s)
                end
            | EmptyString => ([], s)
            end
          else ([], s)
      end
  end.

Definition digitpart (s : string) : option (list Z * string) :=
  match s with
  | String c s' =>
      match digit_of c with
      | Some d => let (ds, r) := digitpart_rest s' in Some (d :: ds, r)
      | None => None
      end
  | EmptyString => None
  end.

(** Integer digits, fraction digits, and what is left. *)
Definition number (s : string) : option (list Z * list Z * string) :=
  match digitpart s with
  | Some (ip, r) =>
      match r with
      | String c r' =>
          if Ascii.eqb c "." then
            match digitpart r' with
            | Some (fp, r'') => Some (ip, fp, r'')
            | None => Some (ip, [], r')
            end
          else Some (ip, [], r)
      | EmptyString => Some (ip, [], r)
      end
  | None =>
      match s with
      | String c r' =>
          if Ascii.eqb c "." then
            match digitpart r' with
            | Some (fp, r'') => Some ([], fp, r'')
            | None => None
            end
          else None
      | EmptyString => None
      end
  end.

Definition sign (s : string) : bool * string :=
  match s with
  | String c s' =>
      if Ascii.eqb c "-" then (true, s')
      else if Ascii.eqb c "+" then (false, s')
      else (false, s)
  | EmptyString => (false, s)
  end.

Definition Z_of_digits (ds : list Z) : Z :=
  fold_left (fun acc d => 10 * acc + d)%Z ds 0%Z.

(** The exponent, which must reach the end of the string. *)
Definition exponent (s : string) : option Z :=
  match s with
  | EmptyString => Some 0%Z
  | String c r =>
      if Ascii.eqb c "e" || Ascii.eqb c "E" then
        let (neg, r') := sign r in
        match digitpart r' with
        | Some (ds, EmptyString) =>
            Some (if neg then - Z_of_digits ds else Z_of_digits ds)%Z
        | _ => None
        end
      else None
  end.

Definition pow10 (e : Z) : Q :=
  match e with
  | Z0 => 1%Q
  | Zpos p => inject_Z (10 ^ Zpos p)
  | Zneg p => / inject_Z (10 ^ Zpos p)
  end.

(** [(-1)^neg * m * 10^e], exactly. *)
Definition decimal (neg : bool) (m e : Z) : float :=
  F (inject_Z (if neg then - m else m) * pow10 e).

(** The [ValueError] of [float]: its text ends with [repr(s)]. *)
Definition could_not_convert (s : string) : exception :=
  ValueError ("could not convert string to float: " ++ Str.repr s).

Definition py_float (s : string) : exc float :=
  let (neg, body) := sign (Str.strip s) in
  let low := Str.lower body in
  if String.eqb low "inf" || String.eqb low "infinity" then Return (Inf neg)
  else if String.eqb low "nan" then Return NaN
  else
    match number body with
    | Some (ip, fp, r) =>
        match exponent r with
        | Some e =>
            Return (decimal neg (Z_of_digits (ip ++ fp))
                            (e - Z.of_nat (List.length fp)))
        | None => Raise (could_not_convert s)
        end
    | None => Raise (could_not_convert s)
    end.

End PyFloat.
Export PyFloat.


(* ================================================================== *)
(** * Cells and rows *)

(** A cell of a column that [pd.read_html] did not read as text only: a
    string or a number; a missing cell is the number [NaN]. *)
Inductive cell : Type :=
| Str (s : string)
| Num (x : float).

(** The texts [pd.read_html] reads as a missing cell (pandas' default
    [na_values]): a cell that holds one of them arrives as [NaN], never
    as text. *)
Definition na_values : list string :=
  [""; "#N/A"; "#N/A N/A"; "#NA"; "-1.#IND"; "-1.#QNAN"; "-NaN"; "-nan";
   "1.#IND"; "1.#QNAN"; "<NA>"; "N/A"; "NA"; "NULL"; "NaN"; "None";
   "n/a"; "nan"; "null"].

(** Can [pd.read_html] hand the cell over? *)
Definition handed_over (v : cell) : bool :=
  match v with
  | Str s => negb (existsb (String.eqb s) na_values)
  | Num _ => true
  end.

(** A row of the table once its 13 columns carry their names (positional:
    the field order is the column order).  [TICKER] and [SEGMENTO] are
    text columns: a string, or nothing where the cell is empty. *)
Record RawRow : Type := mkRawRow {
  raw_TICKER : option string;
  raw_SEGMENTO : option string;
  raw_COTACAO : cell;
  raw_FFO_YIELD : cell;
  raw_DIVIDEND_YIELD : cell;
  raw_P_VP : cell;
  raw_VALOR_MERCADO : cell;
  raw_LIQUIDEZ : cell;
  raw_QTD_IMOVEIS : cell;
  raw_PRECO_M2 : cell;
  raw_ALUGUEL_M2 : cell;
  raw_CAP_RATE : cell;
  raw_VACANCIA_MEDIA : cell
}.

(** A row after the type conversions of step 4: the four percentage
    columns, [P_VP] and [LIQUIDEZ] are float columns. *)
Record FundRecord : Type := mkFundRecord {
  TICKER : option string;
  SEGMENTO : option string;
  COTACAO : cell;
  FFO_YIELD : float;
  DIVIDEND_YIELD : float;
  P_VP : float;
  VALOR_MERCADO : cell;
  LIQUIDEZ : float;
  QTD_IMOVEIS : cell;
  PRECO_M2 : cell;
  ALUGUEL_M2 : cell;
  CAP_RATE : float;
  VACANCIA_MEDIA : float
}.

Definition DataFrame : Type := list FundRecord.

(* ================================================================== *)
(** * The normaliser: steps 4 and 5 of [buscar_dados_fundamentus] *)

(** [clean_percent], lines 38-42. *)
Definition clean_percent (value : cell) : exc cell :=
  match value with
  | Str s =>
      let cleaned_value :=
        Str.replace "%" "" (Str.replace "," "." (Str.replace "." "" s)) in
      if String.eqb cleaned_value "" then Return (Num NaN)
      else x <- py_float cleaned_value ;; Return (Num x)
  | Num _ => Return value
  end.

(** [.astype(float)] on one cell. *)
Definition astype_float (v : cell) : exc float :=
  match v with
  | Str s => py_float s
  | Num x => Return x
  end.

(** [df[col].apply(clean_percent).astype(float)], line 44. *)
Definition convert_percent (column : list cell) : exc (list float) :=
  cleaned <- mapM clean_percent column ;;
  mapM astype_float cleaned.

(** [pd.to_numeric(..., errors='coerce')] on one cell: what does not
    parse becomes [NaN].  The strings pandas reads as numbers are taken to
    be those [float] accepts; pandas' own reader is narrower: digits
    grouped by an underscore, an infinity after a blank and a number too
    large for a float are [NaN] to it. *)
Definition to_numeric_coerce (v : cell) : float :=
  match v with
  | Num x => x
  | Str s => match py_float s with
             | Return x => x
             | Raise _ => NaN
             end
  end.

(** A row with its converted cells beside the untouched ones. *)
Definition converted (r : RawRow) (dy vac ffo cap : float) : FundRecord :=
  {| TICKER := raw_TICKER r;
     SEGMENTO := raw_SEGMENTO r;
     COTACAO := raw_COTACAO r;
     FFO_YIELD := ffo;
     DIVIDEND_YIELD := dy;
     P_VP := to_numeric_coerce (raw_P_VP r);
     VALOR_MERCADO := raw_VALOR_MERCADO r;
     LIQUIDEZ := to_numeric_coerce (raw_LIQUIDEZ r);
     QTD_IMOVEIS := raw_QTD_IMOVEIS r;
     PRECO_M2 := raw_PRECO_M2 r;
     ALUGUEL_M2 := raw_ALUGUEL_M2 r;
     CAP_RATE := cap;
     VACANCIA_MEDIA := vac |}.

(** The converted columns put back into the frame. *)
Fixpoint assemble (df : list RawRow) (dy vac ffo cap : list float)
  : DataFrame :=
  match df, dy, vac, ffo, cap with
  | r :: df', a :: dy', b :: vac', c :: ffo', d :: cap' =>
      converted r a b c d :: assemble df' dy' vac' ffo' cap'
  | _, _, _, _, _ => []
  end.

(** [df.dropna(subset=['DIVIDEND_YIELD','P_VP','VACANCIA_MEDIA','LIQUIDEZ'])]:
    the rows it keeps. *)
Definition notna_critical (r : FundRecord) : bool :=
  negb (isnan (DIVIDEND_YIELD r)) && negb (isnan (P_VP r))
  && negb (isnan (VACANCIA_MEDIA r)) && negb (isnan (LIQUIDEZ r)).

Definition dropna (df : DataFrame) : DataFrame := filter notna_critical df.

(** Lines 36-54.  The percentage columns are converted one after the
    other, in the order of [cols_percent]; an exception raised by a cell
    leaves the function. *)
Definition normalize (df : list RawRow) : exc DataFrame :=
  dy <- convert_percent (map raw_DIVIDEND_YIELD df) ;;
  vac <- convert_percent (map raw_VACANCIA_MEDIA df) ;;
  ffo <- convert_percent (map raw_FFO_YIELD df) ;;
  cap <- convert_percent (map raw_CAP_RATE df) ;;
  let df := assemble df dy vac ffo cap in
  let df := dropna df in
  Return (filter (fun r => fgt (LIQUIDEZ r) (F 0)) df).

(* ================================================================== *)
(** * The fetcher: steps 1 to 3 *)

(** A table found in the page: one of 13 columns, or one of another
    width.  [labels] says what the 13 columns hold, from left to right,
    each by the name lines 29-33 have for it; the cells of a row are
    taken by position, so the field [raw_DIVIDEND_YIELD] of a row is its
    fifth cell, whatever the fifth column holds. *)
Inductive html_table : Type :=
| Table13 (labels : list string) (width : List.length labels = 13)
    (rows : list RawRow)
| TableOther (n_columns : nat) (other : n_columns <> 13).

(** The names of lines 29-33, in their order. *)
Definition columns : list string :=
  ["TICKER"; "SEGMENTO"; "COTAÇÃO"; "FFO_YIELD"; "DIVIDEND_YIELD";
   "P_VP"; "VALOR_MERCADO"; "LIQUIDEZ"; "QTD_IMOVEIS";
   "PRECO_M2"; "ALUGUEL_M2"; "CAP_RATE"; "VACANCIA_MEDIA"].

(** A table of the listing as the site has it. *)
Definition listing (rows : list RawRow) : html_table :=
  Table13 columns eq_refl rows.

(** What [requests.get] meets: an exception, or a page, of which only the
    tables matter to [pd.read_html]. *)
Inductive response : Type :=
| Unreachable (detail : string)
| Page (tables : list html_table).

Definition requests_get (resp : response) : exc (list html_table) :=
  match resp with
  | Unreachable detail => Raise (RequestException detail)
  | Page tables => Return tables
  end.

Definition read_html (tables : list html_table) : exc (list html_table) :=
  match tables with
  | [] => Raise (ValueError "No tables found")
  | _ => Return tables
  end.

Definition first_table (tabelas : list html_table) : exc html_table :=
  match tabelas with
  | [] => Raise (IndexError "list index out of range")
  | t :: _ => Return t
  end.

Definition string_of_nat (n : nat) : string :=
  NilEmpty.string_of_uint (Nat.to_uint n).

(** [df.columns = [...]] with 13 names, lines 29-33: the columns are
    named by position, and what they were called is not looked at. *)
Definition set_columns (t : html_table) : exc (list RawRow) :=
  match t with
  | Table13 _ _ rows => Return rows
  | TableOther n _ =>
      Raise (ValueError ("Length mismatch: Expected axis has "
                         ++ string_of_nat n
                         ++ " elements, new values have 13 elements"))
  end.

(** The body of the [try], lines 18-54. *)
Definition try_body (resp : response) : exc DataFrame :=
  text <- requests_get resp ;;
  tabelas <- read_html text ;;
  t <- first_table tabelas ;;
  df <- set_columns t ;;
  normalize df.

(** The text of line 57: [f"Erro ao buscar dados do Fundamentus. Detalhe: {e}"]. *)
Definition erro_ao_buscar (e : exception) : string :=
  "Erro ao buscar dados do Fundamentus. Detalhe: " ++ str_of_exception e.

(** What [buscar_dados_fundamentus] returns: the frame of the 13 named
    columns with the rows that are left, or [pd.DataFrame()], which has no
    column and no row. *)
Inductive fetched : Type :=
| pd_DataFrame
| Normalized (df : DataFrame).

Definition rows_of (f : fetched) : DataFrame :=
  match f with
  | pd_DataFrame => []
  | Normalized df => df
  end.

(** [buscar_dados_fundamentus], lines 15-58: the data frame returned and
    the messages shown with [st.error].  The one-hour cache in front of it
    is not part of the model. *)
Definition buscar_dados_fundamentus (resp : response)
  : fetched * list string :=
  match try_body resp with
  | Return df => (Normalized df, [])
  | Raise e => (pd_DataFrame, [erro_ao_buscar e])
  end.

(* ================================================================== *)
(** * Sorting: [np.argsort], pandas' [nargsort], [sort_values] *)

(** [rows.take(indexer)] / [a[indexer]]: the rows at the given positions,
    in that order.  The positions handed to it below come from [nargsort]
    and are positions of [rows] ([nargsort_Permutation]); one that is not,
    on which pandas raises, is skipped. *)
Definition take {A : Type} (rows : list A) (indexer : list nat) : list A :=
  flat_map (fun i => match nth_error rows i with
                     | Some r => [r]
                     | None => []
                     end) indexer.

Definition total {K : Type} (leb : K -> K -> bool) : Prop :=
  forall x y, leb x y = true \/ leb y x = true.

Definition transitive {K : Type} (leb : K -> K -> bool) : Prop :=
  forall x y z, leb x y = true -> leb y z = true -> leb x z = true.

(** [np.argsort(a, kind='quicksort')] for any element type and its order:
    "the indices that would sort this array".  Nothing more is documented
    for this kind: it is not a stable sort, and which algorithm runs
    depends on the NumPy build and the processor.  The functions below
    take the sort as an argument of this type. *)
Record Argsort : Type := mkArgsort {
  argsort : forall K : Type, (K -> K -> bool) -> list K -> list nat;
  argsort_permutation :
    forall (K : Type) (leb : K -> K -> bool) (a : list K),
      Permutation (argsort K leb a) (seq 0 (List.length a));
  argsort_sorts :
    forall (K : Type) (leb : K -> K -> bool) (a : list K),
      total leb -> transitive leb ->
      StronglySorted (fun x y => leb x y = true) (take a (argsort K leb a))
}.

(** [pandas.core.sorting.nargsort(items, kind, ascending, na_position='last')]:
    the missing keys are set aside, the others are sorted (for a
    descending sort: reversed, sorted, and the result reversed), and the
    missing ones are put last. *)
Definition nargsort (np : Argsort) {K : Type} (leb : K -> K -> bool)
  (isna : K -> bool) (items : list K) (ascending : bool) : list nat :=
  let idx := seq 0 (List.length items) in
  let present := filter (fun p => negb (isna (snd p))) (combine idx items) in
  let non_nans := map snd present in
  let non_nan_idx := map fst present in
  let nan_idx := map fst (filter (fun p => isna (snd p)) (combine idx items)) in
  let non_nans := if ascending then non_nans else rev non_nans in
  let non_nan_idx := if ascending then non_nan_idx else rev non_nan_idx in
  let indexer := take non_nan_idx (argsort np K leb non_nans) in
  let indexer := if ascending then indexer else rev indexer in
  indexer ++ nan_idx.

(** [df.sort_values(by=..., ascending=...)] on one key column. *)
Definition sort_values (np : Argsort) {A K : Type} (leb : K -> K -> bool)
  (isna : K -> bool) (by_ : A -> K) (ascending : bool) (df : list A)
  : list A :=
  take df (nargsort np leb isna (map by_ df) ascending).

(* ================================================================== *)
(** * The filter: lines 77-118 *)

(** The four slider values. *)
Record FilterCriteria : Type := mkCriteria {
  dy_min : float;
  pvp_max : float;
  vacancia_max : float;
  liquidez_min : float
}.

(** The boolean mask of lines 114-117, row by row. *)
Definition mask (c : FilterCriteria) (r : FundRecord) : bool :=
  fge (DIVIDEND_YIELD r) (dy_min c)
  && fle (P_VP r) (pvp_max c)
  && fle (VACANCIA_MEDIA r) (vacancia_max c)
  && fge (LIQUIDEZ r) (liquidez_min c).

(** [df_filtrado], lines 113-118. *)
Definition df_filtrado (np : Argsort) (df_fii : DataFrame)
  (c : FilterCriteria) : DataFrame :=
  sort_values np np_le isnan DIVIDEND_YIELD false (filter (mask c) df_fii).

(** [Series.min()] and [Series.max()]: missing values are skipped, and the
    result is missing when nothing is left. *)
Fixpoint series_min (s : list float) : float :=
  match s with
  | [] => NaN
  | x :: s' =>
      let m := series_min s' in
      if isnan x then m
      else if isnan m then x
      else if flt m x then m else x
  end.

Fixpoint series_max (s : list float) : float :=
  match s with
  | [] => NaN
  | x :: s' =>
      let m := series_max s' in
      if isnan x then m
      else if isnan m then x
      else if fgt m x then m else x
  end.

(** The [value=] of the four sliders, lines 81, 90, 99 and 108: what the
    criteria are until the user moves a slider. *)
Definition default_criteria (df_fii : DataFrame) : FilterCriteria :=
  {| dy_min := series_min (map DIVIDEND_YIELD df_fii);
     pvp_max := series_max (map P_VP df_fii);
     vacancia_max := series_max (map VACANCIA_MEDIA df_fii);
     liquidez_min := series_min (map LIQUIDEZ df_fii) |}.

(* ================================================================== *)
(** * The per-segment table: lines 248-254 *)

(** A row of [analise_segmento] after [reset_index()]. *)
Record SegmentSummary : Type := mkSummary {
  segmento : string;
  FIIs_Contagem : nat;
  DY_Medio : float;
  P_VP_Medio : float;
  Vacancia_Media : float;
  Liquidez_Medio : float
}.

(** What one pass over the rows keeps for a ['mean']: the sum and the
    number of the values that are not missing. *)
Definition mean_acc : Type := (float * nat)%type.

Definition mean_add (x : float) (a : mean_acc) : mean_acc :=
  if isnan x then a else (fadd (fst a) x, S (snd a)).

Definition mean_result (a : mean_acc) : float :=
  match snd a with
  | O => NaN
  | S _ => fdiv_nat (fst a) (snd a)
  end.

(** The aggregates of one group: ['count'] of [TICKER] (its cells that
    are not missing) and the four means. *)
Record group_acc : Type := mkAcc {
  acc_count : nat;
  acc_dy : mean_acc;
  acc_pvp : mean_acc;
  acc_vac : mean_acc;
  acc_liq : mean_acc
}.

Definition acc_empty : group_acc :=
  {| acc_count := 0;
     acc_dy := (F 0, 0); acc_pvp := (F 0, 0);
     acc_vac := (F 0, 0); acc_liq := (F 0, 0) |}.

Definition acc_add (r : FundRecord) (a : group_acc) : group_acc :=
  {| acc_count := match TICKER r with
                  | Some _ => S (acc_count a)
                  | None => acc_count a
                  end;
     acc_dy := mean_add (DIVIDEND_YIELD r) (acc_dy a);
     acc_pvp := mean_add (P_VP r) (acc_pvp a);
     acc_vac := mean_add (VACANCIA_MEDIA r) (acc_vac a);
     acc_liq := mean_add (LIQUIDEZ r) (acc_liq a) |}.

(** The groups, kept in increasing order of their key
    ([groupby(..., sort=True)], the default): the row [r] of key [k] joins
    its group, which is created where the order puts it. *)
Fixpoint upsert (k : string) (r : FundRecord)
  (groups : list (string * group_acc)) : list (string * group_acc) :=
  match groups with
  | [] => [(k, acc_add r acc_empty)]
  | (k', a) :: rest =>
      match String.compare k k' with
      | Eq => (k', acc_add r a) :: rest
      | Lt => (k, acc_add r acc_empty) :: (k', a) :: rest
      | Gt => (k', a) :: upsert k r rest
      end
  end.

(** [df.groupby('SEGMENTO')] followed by the aggregation: one pass over
    the rows; a row whose key is missing belongs to no group
    ([dropna=True], the default). *)
Definition groupby_agg (df : DataFrame) : list (string * group_acc) :=
  fold_left (fun groups r =>
               match SEGMENTO r with
               | Some k => upsert k r groups
               | None => groups
               end) df [].

Definition summary (g : string * group_acc) : SegmentSummary :=
  {| segmento := fst g;
     FIIs_Contagem := acc_count (snd g);
     DY_Medio := mean_result (acc_dy (snd g));
     P_VP_Medio := mean_result (acc_pvp (snd g));
     Vacancia_Media := mean_result (acc_vac (snd g));
     Liquidez_Medio := mean_result (acc_liq (snd g)) |}.

(** [analise_segmento], lines 248-254. *)
Definition analise_segmento (np : Argsort) (df : DataFrame)
  : list SegmentSummary :=
  sort_values np Nat.leb (fun _ => false) FIIs_Contagem false
              (map summary (groupby_agg df)).

(* ================================================================== *)
(** * The page: lines 66-264, without the widgets and the charts *)

Inductive analysis : Type :=
| Analise (table : list SegmentSummary)
| Warning (msg : string).

Record page : Type := mkPage {
  st_error : list string;
  filtrado : option DataFrame;
  analise : option analysis
}.

(** [df.empty]: no row (or no column). *)
Definition empty {A : Type} (df : list A) : bool :=
  match df with [] => true | _ => false end.

(** Lines 66-264.  [sliders] is the sidebar and the user: the criteria
    chosen for the data shown, or nothing when a slider refuses its
    arguments and raises; an exception raised there is not caught and
    ends the script, and the page is [None].  No slider is made, and
    nothing reads a column of [df_fii], unless it has a row. *)
Definition app (np : Argsort) (sliders : DataFrame -> option FilterCriteria)
  (resp : response) : option page :=
  let (fetched_df, errors) := buscar_dados_fundamentus resp in
  if empty (rows_of fetched_df) then
    Some {| st_error := errors; filtrado := None; analise := None |}
  else
    let df_fii := rows_of fetched_df in
    match sliders df_fii with
    | None => None
    | Some criteria =>
        let df := df_filtrado np df_fii criteria in
        Some {| st_error := errors;
                filtrado := Some df;
                analise :=
                  Some (if empty df then
                          Warning "Nenhum FII atendeu aos critérios para realizar a análise."
                        else Analise (analise_segmento np df)) |}
    end.

(* ================================================================== *)
(** * What the statements are written with *)

(** ** The percent parser and the normaliser *)

(** The percent parser applied to one cell: [clean_percent], then the
    conversion of the column to floats. *)
Definition parse_percent (v : cell) : exc float :=
  c <- clean_percent v ;; astype_float c.

(** What the three [replace] calls amount to, character by character. *)
Definition clean_char (c : ascii) : string :=
  if Ascii.eqb c "." then ""
  else if Ascii.eqb c "," then "."
  else if Ascii.eqb c "%" then ""
  else String c "".

Fixpoint clean_text (s : string) : string :=
  match s with
  | EmptyString => EmptyString
  | String c s' => clean_char c ++ clean_text s'
  end.

(** The percent parser as the specification words it: thousands
    separators removed, decimal comma made a dot, a trailing percent sign
    stripped, the empty remainder null, anything else parsed as a float. *)
Fixpoint strip_trailing_percent (s : string) : string :=
  match s with
  | EmptyString => EmptyString
  | String c EmptyString => if Ascii.eqb c "%" then EmptyString else s
  | String c s' => String c (strip_trailing_percent s')
  end.

Definition spec_parse_percent (s : string) : exc float :=
  let r := strip_trailing_percent
             (Str.replace "," "." (Str.replace "." "" s)) in
  if String.eqb r "" then Return NaN else py_float r.

(** The character occurs in the string. *)
Fixpoint occurs (c : ascii) (s : string) : bool :=
  match s with
  | EmptyString => false
  | String c' s' => Ascii.eqb c' c || occurs c s'
  end.

(** The invariant of a normalised row. *)
Definition valid_row (r : FundRecord) : Prop :=
  isnan (DIVIDEND_YIELD r) = false
  /\ isnan (P_VP r) = false
  /\ isnan (VACANCIA_MEDIA r) = false
  /\ isnan (LIQUIDEZ r) = false
  /\ fgt (LIQUIDEZ r) (F 0) = true.

(** The four percentage cells of a raw row can be parsed. *)
Definition percent_ok (r : RawRow) : Prop :=
  (exists x, parse_percent (raw_DIVIDEND_YIELD r) = Return x)
  /\ (exists x, parse_percent (raw_VACANCIA_MEDIA r) = Return x)
  /\ (exists x, parse_percent (raw_FFO_YIELD r) = Return x)
  /\ (exists x, parse_percent (raw_CAP_RATE r) = Return x).


(** ** Groups *)

(** Python's [<] on [str]: the order of the code points, which on UTF-8
    text is the order of the bytes. *)
Definition slt (a b : string) : Prop := String.compare a b = Lt.

(** The group of a key, as its accumulator. *)
Fixpoint find_group (k : string) (groups : list (string * group_acc))
  : option group_acc :=
  match groups with
  | [] => None
  | (k', a) :: rest => if String.eqb k k' then Some a else find_group k rest
  end.

(** The segment of the record is [k]; the record has a ticker; the record
    has a segment. *)
Definition has_segment (k : string) (r : FundRecord) : bool :=
  match SEGMENTO r with
  | Some k' => String.eqb k' k
  | None => false
  end.

Definition has_ticker (r : FundRecord) : bool :=
  match TICKER r with Some _ => true | None => false end.

Definition grouped (r : FundRecord) : bool :=
  match SEGMENTO r with Some _ => true | None => false end.

(** The rows of a data frame whose segment is [k], in their order. *)
Definition group_rows (k : string) (df : DataFrame) : DataFrame :=
  filter (has_segment k) df.

(** The accumulator after the rows of [l]. *)
Definition acc_of (l : DataFrame) : group_acc :=
  fold_left (fun a r => acc_add r a) l acc_empty.

(** The accumulator of a group, the empty one for a group not yet there. *)
Definition or_empty (o : option group_acc) : group_acc :=
  match o with Some a => a | None => acc_empty end.

(** The sum and the unweighted arithmetic mean of a list of values. *)
Definition fsum (l : list float) : float := fold_left fadd l (F 0).

Definition mean (l : list float) : float :=
  match l with
  | [] => NaN
  | _ => fdiv_nat (fsum l) (List.length l)
  end.

(** The values a mean does not skip. *)
Definition notnan (x : float) : bool := negb (isnan x).

(** The summary of the segment [k] of a data frame, from its rows: the
    number of tickers and the means of the values that are not missing. *)
Definition summary_of (k : string) (df : DataFrame) : SegmentSummary :=
  let g := group_rows k df in
  {| segmento := k;
     FIIs_Contagem := List.length (filter has_ticker g);
     DY_Medio := mean (filter notnan (map DIVIDEND_YIELD g));
     P_VP_Medio := mean (filter notnan (map P_VP g));
     Vacancia_Media := mean (filter notnan (map VACANCIA_MEDIA g));
     Liquidez_Medio := mean (filter notnan (map LIQUIDEZ g)) |}.

(** ** Lists and sorts *)

(** The row at a position, if there is one. *)
Definition at_index {A : Type} (l : list A) (i : nat) : list A :=
  match nth_error l i with
  | Some r => [r]
  | None => []
  end.

(** Insertion sort of the positions by their keys: [p] goes before the
    first [q] with [before p q]. *)
Fixpoint insert {K : Type} (before : K -> K -> bool) (p : nat * K)
  (sorted : list (nat * K)) : list (nat * K) :=
  match sorted with
  | [] => [p]
  | q :: rest =>
      if before (snd p) (snd q) then p :: sorted
      else q :: insert before p rest
  end.

Definition insertion_sort {K : Type} (before : K -> K -> bool)
  (l : list (nat * K)) : list (nat * K) :=
  fold_right (insert before) [] l.

Definition insertion_argsort {K : Type} (before : K -> K -> bool)
  (a : list K) : list nat :=
  map fst (insertion_sort before (combine (seq 0 (List.length a)) a)).

(** The records of equal yield keep the order they have in the input. *)
Definition keeps_tie_order (df_fii : DataFrame) (c : FilterCriteria)
  (out : DataFrame) : Prop :=
  forall d : float,
    filter (fun r => feq (DIVIDEND_YIELD r) d) out
    = filter (fun r => feq (DIVIDEND_YIELD r) d) (filter (mask c) df_fii).

(** The position of the first record of a segment. *)
Fixpoint first_index (k : string) (df : DataFrame) : option nat :=
  match df with
  | [] => None
  | r :: df' =>
      if has_segment k r then Some 0
      else option_map S (first_index k df')
  end.

(** Both segments appear, the first before the second. *)
Definition appears_before (df : DataFrame) (k1 k2 : string) : Prop :=
  match first_index k1 df, first_index k2 df with
  | Some i, Some j => i < j
  | _, _ => False
  end.

(** Of two summaries of equal count, the one placed first is the one
    whose segment appears first in the data frame. *)
Definition ties_by_first_appearance (df : DataFrame)
  (out : list SegmentSummary) : Prop :=
  forall l1 s1 l2 s2 l3,
    out = l1 ++ s1 :: l2 ++ s2 :: l3 ->
    FIIs_Contagem s1 = FIIs_Contagem s2 ->
    appears_before df (segmento s1) (segmento s2).

(** The key at a position is equivalent to [d] for the order [leb]. *)
Definition equiv_at {K : Type} (leb : K -> K -> bool) (d : K)
  (a : list K) (i : nat) : bool :=
  match nth_error a i with
  | Some x => leb x d && leb d x
  | None => false
  end.

(** An [argsort] is stable when the positions of equivalent keys come out
    in increasing order (what NumPy documents for [kind='stable']). *)
Definition stable (np : Argsort) : Prop :=
  forall (K : Type) (leb : K -> K -> bool) (a : list K) (d : K),
    total leb -> transitive leb ->
    filter (equiv_at leb d a) (argsort np K leb a)
    = filter (equiv_at leb d a) (seq 0 (List.length a)).

(* ================================================================== *)
(** * Sample data *)

(** A row of the listing as [pd.read_html] hands it over. *)
Definition raw_row (ticker segmento : option string)
  (dy p_vp liquidez vacancia : cell) : RawRow :=
  {| raw_TICKER := ticker;
     raw_SEGMENTO := segmento;
     raw_COTACAO := Num (F 160.5);
     raw_FFO_YIELD := Str "8,51%";
     raw_DIVIDEND_YIELD := dy;
     raw_P_VP := p_vp;
     raw_VALOR_MERCADO := Num (F 5400000000);
     raw_LIQUIDEZ := liquidez;
     raw_QTD_IMOVEIS := Num (F 20);
     raw_PRECO_M2 := Num (F 3500.12);
     raw_ALUGUEL_M2 := Num (F 290.4);
     raw_CAP_RATE := Str "8,30%";
     raw_VACANCIA_MEDIA := vacancia |}.

Definition raw_HGLG11 : RawRow :=
  raw_row (Some "HGLG11") (Some "Logistica")
          (Str "8,90%") (Num (F 1.02)) (Num (F 6500000)) (Str "5,20%").

Definition raw_KNRI11 : RawRow :=
  raw_row (Some "KNRI11") (Some "Hibrido")
          (Str "7,15%") (Num (F 0.98)) (Num (F 4100000)) (Str "3,00%").

(** The same fund with a yield cell that is no number: a dash, which
    [pd.read_html] hands over as it is. *)
Definition raw_KNRI11_bad : RawRow :=
  raw_row (Some "KNRI11") (Some "Hibrido")
          (Str "-") (Num (F 0.98)) (Num (F 4100000)) (Str "3,00%").

(** A fund whose [P_VP] and [LIQUIDEZ] cells are no numbers. *)
Definition raw_XPTO11 : RawRow :=
  raw_row (Some "XPTO11") (Some "Outros")
          (Str "1,00%") (Str "-") (Str "n/d") (Str "0,00%").

(** HGLG11 as it stands in a table with such a row: a column that holds
    a cell that is no number is read as text throughout, the separators
    of the cells that are numbers already rewritten. *)
Definition raw_HGLG11_text : RawRow :=
  raw_row (Some "HGLG11") (Some "Logistica")
          (Str "8,90%") (Str "1.02") (Str "6500000") (Str "5,20%").




(** A normalised row with the six fields the filter and the table read. *)
Definition fund (ticker segmento : option string)
  (dy p_vp vacancia liquidez : Q) : FundRecord :=
  {| TICKER := ticker;
     SEGMENTO := segmento;
     COTACAO := Num NaN;
     FFO_YIELD := NaN;
     DIVIDEND_YIELD := F dy;
     P_VP := F p_vp;
     VALOR_MERCADO := Num NaN;
     LIQUIDEZ := F liquidez;
     QTD_IMOVEIS := Num NaN;
     PRECO_M2 := Num NaN;
     ALUGUEL_M2 := Num NaN;
     CAP_RATE := NaN;
     VACANCIA_MEDIA := F vacancia |}.

(** The three records of the specification's end-to-end scenario. *)
Definition fund_A : FundRecord :=
  fund (Some "A") (Some "Shopping") 8.0 0.9 5.0 50000.
Definition fund_B : FundRecord :=
  fund (Some "B") (Some "Shopping") 10.0 1.2 2.0 200000.
Definition fund_C : FundRecord :=
  fund (Some "C") (Some "Logistics") 6.0 0.8 1.0 80000.

(** A fund with the yield of [fund_A]. *)
Definition fund_A' : FundRecord :=
  fund (Some "A'") (Some "Shopping") 8.0 1.0 4.0 60000.

(** A fund with no segment, and one with no ticker. *)
Definition fund_no_segment : FundRecord :=
  fund (Some "D") None 9.0 1.0 0.0 70000.
Definition fund_no_ticker : FundRecord :=
  fund None (Some "Shopping") 9.0 1.0 0.0 70000.

Definition scenario : DataFrame := [fund_A; fund_B; fund_C].

Definition scenario_criteria : FilterCriteria :=
  {| dy_min := F 7.0; pvp_max := F 1.5;
     vacancia_max := F 10.0; liquidez_min := F 10000 |}.

(* ================================================================== *)
(** * The rest of the page *)

(** ** The sidebar: lines 77-101 *)







(** ** The key metrics: lines 121-129 *)

(** [Series.mean()]: the mean of the values that are not missing, as a
    number.  pandas adds up a column and the groups of a [groupby] by
    different routines, whose roundings differ; nothing here compares
    the two. *)
Definition series_mean (s : list float) : float := mean (filter notnan s).

(** The numbers behind the three [metric] boxes, before they are
    formatted; [None] is the box that reads "N/A". *)
Record metricas : Type := mkMetricas {
  fiis_encontrados : nat;
  totais : nat;
  media_p_vp : option float;
  media_dy : option float
}.

Definition metricas_chave (df_fii df_filtrado : DataFrame) : metricas :=
  {| fiis_encontrados := List.length df_filtrado;
     totais := List.length df_fii;
     media_p_vp :=
       if empty df_filtrado then None
       else Some (series_mean (map P_VP df_filtrado));
     media_dy :=
       if empty df_filtrado then None
       else Some (series_mean (map DIVIDEND_YIELD df_filtrado)) |}.

(** ** The detail panel: lines 156-224 *)

(** The first option of the select box. *)
Definition selecione : option string := Some "Selecione...".

(** [==] between two cells of text: a missing cell equals nothing. *)
Definition text_eqb (a b : option string) : bool :=
  match a, b with
  | Some x, Some y => String.eqb x y
  | _, _ => false
  end.

(** [options=['Selecione...'] + tickers_filtrados], lines 156-164. *)
Definition selectbox_options (df_filtrado : DataFrame)
  : list (option string) :=
  selecione :: map TICKER df_filtrado.

(** [.iloc[0]]. *)
Definition iloc0 {A : Type} (df : list A) : exc A :=
  match df with
  | [] => Raise (IndexError "single positional indexer is out-of-bounds")
  | r :: _ => Return r
  end.

(** [df_filtrado.groupby('SEGMENTO')['P_VP'].mean()], line 212: one pass
    over the rows that keeps, per segment, the sum and the number of the
    [P_VP] values. *)
Fixpoint upsert_mean (k : string) (x : float)
  (groups : list (string * mean_acc)) : list (string * mean_acc) :=
  match groups with
  | [] => [(k, mean_add x (F 0, 0))]
  | (k', a) :: rest =>
      match String.compare k k' with
      | Eq => (k', mean_add x a) :: rest
      | Lt => (k, mean_add x (F 0, 0)) :: (k', a) :: rest
      | Gt => (k', a) :: upsert_mean k x rest
      end
  end.

(** [analise_pvp], line 212, after [reset_index]: the segments in
    increasing order, each with its mean [P/VP]. *)
Definition analise_pvp (df_filtrado : DataFrame) : list (string * float) :=
  map (fun g => (fst g, mean_result (snd g)))
      (fold_left (fun groups r =>
                    match SEGMENTO r with
                    | Some k => upsert_mean k (P_VP r) groups
                    | None => groups
                    end) df_filtrado []).

(** What the panel is drawn from. *)
Record detalhe : Type := mkDetalhe {
  fii_data : FundRecord;
  segmento_selecionado : option string;
  df_comparativo : DataFrame;
  dy_medio_do_segmento : float
}.

Inductive painel : Type :=
| Comparacao (d : detalhe)
| PVP_por_segmento (barras : list (string * float)).

(** Lines 166-224, with [fii_selecionado] the option chosen in the select
    box.  The charts are left out; what they are given is kept. *)
Definition analise_detalhada (df_filtrado : DataFrame)
  (fii_selecionado : option string) : exc painel :=
  if negb (text_eqb fii_selecionado selecione) then
    fii_data <- iloc0 (filter (fun r => text_eqb (TICKER r) fii_selecionado)
                              df_filtrado) ;;
    let segmento_selecionado := SEGMENTO fii_data in
    let df_comparativo :=
      filter (fun r => text_eqb (SEGMENTO r) segmento_selecionado)
             df_filtrado in
    Return (Comparacao
              {| fii_data := fii_data;
                 segmento_selecionado := segmento_selecionado;
                 df_comparativo := df_comparativo;
                 dy_medio_do_segmento :=
                   series_mean (map DIVIDEND_YIELD df_comparativo) |})
  else Return (PVP_por_segmento (analise_pvp df_filtrado)).

(** ** Row by row *)

(** The conversions of step 4 on one row. *)
Definition convert_row (r : RawRow) : exc FundRecord :=
  dy <- parse_percent (raw_DIVIDEND_YIELD r) ;;
  vac <- parse_percent (raw_VACANCIA_MEDIA r) ;;
  ffo <- parse_percent (raw_FFO_YIELD r) ;;
  cap <- parse_percent (raw_CAP_RATE r) ;;
  Return (converted r dy vac ffo cap).

(** The rows that steps 5 keeps. *)
Definition kept (r : FundRecord) : bool :=
  notna_critical r && fgt (LIQUIDEZ r) (F 0).

(** ** The ends of a slider *)


(** ** Cells of ASCII text *)



(* ================================================================== *)
(** * Examples of [float] *)

Example py_float_ex1 : py_float "1234.56" = Return (F 1234.56).
Proof. reflexivity. Qed.
Example py_float_ex2 : py_float " -1_000.5e-1 " = Return (F (-100.05)).
Proof. vm_compute. reflexivity. Qed.
Example py_float_ex3 : py_float "abc" = Raise (could_not_convert "abc").
Proof. reflexivity. Qed.
Example py_float_ex4 : py_float "1.2.3" = Raise (could_not_convert "1.2.3").
Proof. reflexivity. Qed.
Example py_float_ex5 : py_float "-Infinity" = Return (Inf true).
Proof. reflexivity. Qed.
Example py_float_ex6 : py_float "" = Raise (could_not_convert "").
Proof. reflexivity. Qed.

(** [repr]: a dash, a text with an apostrophe, and one with a backslash
    and a tab. *)
Example repr_ex1 : Str.repr "-" = "'-'".
Proof. reflexivity. Qed.
Example repr_ex2 :
  Str.repr "a'b"
  = String Str.double_quote ("a'b" ++ String Str.double_quote "").
Proof. reflexivity. Qed.
Example repr_ex3 :
  Str.repr (String Str.backslash (String (ascii_of_nat 9) "x"))
  = String "'" (String Str.backslash (String Str.backslash
      (String Str.backslash "tx'"))).
Proof. reflexivity. Qed.
Example could_not_convert_ex :
  str_of_exception (could_not_convert "1.2.3")
  = "could not convert string to float: '1.2.3'".
Proof. reflexivity. Qed.

(* ================================================================== *)
(** * Properties of the percent parser *)

Lemma replace_chain (s : string) :
  Str.replace "%" "" (Str.replace "," "." (Str.replace "." "" s))
  = clean_text s.
Proof.
  induction s as [|c s IH]; [reflexivity|].
  cbn [Str.replace clean_text]. unfold clean_char.
  destruct (Ascii.eqb_spec c "."); [subst; cbn; exact IH|].
  cbn [Str.replace].
  destruct (Ascii.eqb_spec c ","); [subst; cbn; now rewrite IH|].
  cbn [Str.replace].
  destruct (Ascii.eqb_spec c "%"); [subst; cbn; exact IH|].
  cbn. now rewrite IH.
Qed.

Lemma clean_percent_text (s : string) :
  clean_percent (Str s)
  = if String.eqb (clean_text s) "" then Return (Num NaN)
    else x <- py_float (clean_text s) ;; Return (Num x).
Proof. unfold clean_percent. now rewrite replace_chain. Qed.

Lemma clean_percent_Num (v c : cell) :
  clean_percent v = Return c -> exists x, c = Num x.
Proof.
  destruct v as [s|x]; cbn.
  - destruct (String.eqb _ ""); [intros [= <-]; now eexists|].
    destruct (py_float _); cbn; [discriminate|intros [= <-]; now eexists].
  - intros [= <-]. now eexists.
Qed.

Lemma parse_percent_text (s : string) :
  parse_percent (Str s)
  = if String.eqb (clean_text s) "" then Return NaN
    else py_float (clean_text s).
Proof.
  unfold parse_percent. rewrite clean_percent_text.
  destruct (String.eqb _ ""); [reflexivity|].
  now destruct (py_float _).
Qed.

Lemma append_assoc (s t u : string) : ((s ++ t) ++ u = s ++ (t ++ u))%string.
Proof. induction s as [|c s IH]; cbn; [reflexivity|now rewrite IH]. Qed.

Lemma append_empty_r (s : string) : (s ++ "")%string = s.
Proof. induction s as [|c s IH]; cbn; [reflexivity|now rewrite IH]. Qed.

Lemma replace_app (old : ascii) (new s t : string) :
  Str.replace old new (s ++ t)
  = (Str.replace old new s ++ Str.replace old new t)%string.
Proof.
  induction s as [|c s IH]; cbn; [reflexivity|].
  destruct (Ascii.eqb c old); rewrite IH; [now rewrite append_assoc|].
  reflexivity.
Qed.

Lemma replace_absent (old : ascii) (new s : string) :
  occurs old s = false -> Str.replace old new s = s.
Proof.
  induction s as [|c s IH]; cbn; [reflexivity|].
  destruct (Ascii.eqb c old); cbn; [discriminate|].
  intros H. now rewrite IH.
Qed.

Lemma occurs_app (c : ascii) (s t : string) :
  occurs c (s ++ t) = occurs c s || occurs c t.
Proof.
  induction s as [|c' s IH]; cbn; [reflexivity|].
  now rewrite IH, orb_assoc.
Qed.

Lemma occurs_replace (c old : ascii) (new s : string) :
  occurs c new = false -> occurs c s = false ->
  occurs c (Str.replace old new s) = false.
Proof.
  intros Hnew. induction s as [|c' s IH]; cbn; [reflexivity|].
  intros H. apply orb_false_iff in H. destruct H as [Hc Hs].
  destruct (Ascii.eqb c' old); cbn.
  - rewrite occurs_app, Hnew. now apply IH.
  - rewrite Hc. now apply IH.
Qed.

Lemma strip_trailing_percent_absent (s : string) :
  occurs "%" s = false -> strip_trailing_percent s = s.
Proof.
  induction s as [|c s IH]; cbn; [reflexivity|].
  intros H. apply orb_false_iff in H. destruct H as [Hc Hs].
  destruct s as [|c' s']; [now rewrite Hc|].
  now rewrite IH.
Qed.

Lemma strip_trailing_percent_app (s : string) :
  strip_trailing_percent (s ++ "%") = s.
Proof.
  induction s as [|c s IH]; [reflexivity|].
  cbn [append strip_trailing_percent].
  destruct (s ++ "%")%string as [|c' s'] eqn:E.
  - destruct s; discriminate.
  - now rewrite IH.
Qed.

Lemma parse_percent_replace (s : string) :
  parse_percent (Str s)
  = let cleaned :=
      Str.replace "%" "" (Str.replace "," "." (Str.replace "." "" s)) in
    if String.eqb cleaned "" then Return NaN else py_float cleaned.
Proof. rewrite parse_percent_text, replace_chain. reflexivity. Qed.

(* ================================================================== *)
(** * Properties of [mapM] and of the column conversion *)

Lemma mapM_Return {A B : Type} (f : A -> exc B) (l : list A) (l' : list B) :
  mapM f l = Return l' <-> Forall2 (fun a b => f a = Return b) l l'.
Proof.
  revert l'. induction l as [|a l IH]; intros l'; cbn.
  - split; [intros [= <-]; constructor|intros H; now inversion H].
  - destruct (f a) as [e|b] eqn:Ea; cbn.
    + split; [discriminate|]. intros H; inversion H; congruence.
    + destruct (mapM f l) as [e|bs] eqn:El; cbn.
      * split; [discriminate|]. intros H; inversion H; subst.
        match goal with H' : Forall2 _ l _ |- _ => apply IH in H' end.
        discriminate.
      * split.
        -- intros [= <-]. constructor; [assumption|]. now apply IH.
        -- intros H; inversion H; subst.
           match goal with H' : Forall2 _ l _ |- _ => apply IH in H' end.
           congruence.
Qed.


Lemma mapM_total {A B : Type} (f : A -> exc B) (l : list A) :
  Forall (fun a => exists b, f a = Return b) l ->
  exists l', mapM f l = Return l'.
Proof.
  induction 1 as [|a l [b Hb] _ [l' Hl']]; cbn.
  - now eexists.
  - rewrite Hb, Hl'. cbn. now eexists.
Qed.

(** The two passes over a column amount to one pass of [parse_percent]. *)
Lemma convert_percent_mapM (column : list cell) :
  convert_percent column = mapM parse_percent column.
Proof.
  unfold convert_percent.
  induction column as [|v col IH]; [reflexivity|].
  cbn. unfold parse_percent at 1.
  destruct (clean_percent v) as [e|c] eqn:Ev; cbn; [reflexivity|].
  destruct (clean_percent_Num _ _ Ev) as [x ->]. cbn.
  rewrite <- IH.
  destruct (mapM clean_percent col) as [e|cs]; cbn; [reflexivity|].
  now destruct (mapM astype_float cs).
Qed.

(* ================================================================== *)
(** * Properties of the normaliser *)

Lemma normalize_Return (df : list RawRow) (out : DataFrame) :
  normalize df = Return out <->
  exists dy vac ffo cap,
    mapM parse_percent (map raw_DIVIDEND_YIELD df) = Return dy
    /\ mapM parse_percent (map raw_VACANCIA_MEDIA df) = Return vac
    /\ mapM parse_percent (map raw_FFO_YIELD df) = Return ffo
    /\ mapM parse_percent (map raw_CAP_RATE df) = Return cap
    /\ out = filter (fun r => fgt (LIQUIDEZ r) (F 0))
                    (dropna (assemble df dy vac ffo cap)).
Proof.
  unfold normalize. rewrite !convert_percent_mapM.
  destruct (mapM parse_percent (map raw_DIVIDEND_YIELD df)) as [e|dy]; cbn.
  { split; [discriminate|]. intros (?&?&?&?&H&_); discriminate. }
  destruct (mapM parse_percent (map raw_VACANCIA_MEDIA df)) as [e|vac]; cbn.
  { split; [discriminate|]. intros (?&?&?&?&_&H&_); discriminate. }
  destruct (mapM parse_percent (map raw_FFO_YIELD df)) as [e|ffo]; cbn.
  { split; [discriminate|]. intros (?&?&?&?&_&_&H&_); discriminate. }
  destruct (mapM parse_percent (map raw_CAP_RATE df)) as [e|cap]; cbn.
  { split; [discriminate|]. intros (?&?&?&?&_&_&_&H&_); discriminate. }
  split.
  - intros [= <-]. now exists dy, vac, ffo, cap.
  - intros (?&?&?&?&[= <-]&[= <-]&[= <-]&[= <-]&->). reflexivity.
Qed.

Lemma normalize_valid (df : list RawRow) (out : DataFrame) :
  normalize df = Return out -> Forall valid_row out.
Proof.
  intros H. apply normalize_Return in H.
  destruct H as (dy & vac & ffo & cap & _ & _ & _ & _ & ->).
  apply Forall_forall. intros r Hr.
  apply filter_In in Hr. destruct Hr as [Hr Hliq].
  apply filter_In in Hr. destruct Hr as [_ Hna].
  unfold notna_critical in Hna.
  repeat (apply andb_prop in Hna; destruct Hna as [Hna ?]).
  unfold valid_row. repeat split; try now apply negb_true_iff. exact Hliq.
Qed.

Lemma Forall2_map_exists {A B C : Type} (g : A -> B) (P : B -> C -> Prop)
  (l : list A) (l' : list C) :
  Forall2 P (map g l) l' -> Forall (fun a => exists c, P (g a) c) l.
Proof.
  revert l'. induction l as [|a l IH]; intros l' H; [constructor|].
  cbn in H. inversion H; subst.
  constructor; [eexists; eassumption|]. eapply IH; eassumption.
Qed.

Lemma Forall_and4 {A : Type} (P1 P2 P3 P4 : A -> Prop) (l : list A) :
  Forall P1 l -> Forall P2 l -> Forall P3 l -> Forall P4 l ->
  Forall (fun a => P1 a /\ P2 a /\ P3 a /\ P4 a) l.
Proof.
  rewrite !Forall_forall. intros H1 H2 H3 H4 a Ha. auto.
Qed.

(** The normaliser returns a frame exactly when every percentage cell can
    be parsed: what [P_VP] and [LIQUIDEZ] hold never makes it raise. *)
Lemma normalize_succeeds_iff (df : list RawRow) :
  (exists out, normalize df = Return out) <-> Forall percent_ok df.
Proof.
  split.
  - intros [out H]. apply normalize_Return in H.
    destruct H as (dy & vac & ffo & cap & H1 & H2 & H3 & H4 & _).
    apply mapM_Return, Forall2_map_exists in H1, H2, H3, H4.
    unfold percent_ok. now apply Forall_and4.
  - intros H.
    assert (Hcol : forall g : RawRow -> cell,
               Forall (fun r => exists x, parse_percent (g r) = Return x) df ->
               exists l, mapM parse_percent (map g df) = Return l).
    { intros g Hg. apply mapM_total. now apply Forall_map. }
    destruct (Hcol raw_DIVIDEND_YIELD) as [dy Hdy];
      [eapply Forall_impl; [|exact H]; now intros r (?&?&?&?)|].
    destruct (Hcol raw_VACANCIA_MEDIA) as [vac Hvac];
      [eapply Forall_impl; [|exact H]; now intros r (?&?&?&?)|].
    destruct (Hcol raw_FFO_YIELD) as [ffo Hffo];
      [eapply Forall_impl; [|exact H]; now intros r (?&?&?&?)|].
    destruct (Hcol raw_CAP_RATE) as [cap Hcap];
      [eapply Forall_impl; [|exact H]; now intros r (?&?&?&?)|].
    eexists. apply normalize_Return. now exists dy, vac, ffo, cap.
Qed.

Lemma to_numeric_coerce_unparseable (s : string) (e : exception) :
  py_float s = Raise e -> to_numeric_coerce (Str s) = NaN.
Proof. cbn. now intros ->. Qed.

Lemma buscar_Table13 (labels : list string)
  (width : List.length labels = 13) (rows : list RawRow)
  (rest : list html_table) :
  buscar_dados_fundamentus (Page (Table13 labels width rows :: rest))
  = match normalize rows with
    | Return df => (Normalized df, [])
    | Raise e => (pd_DataFrame, [erro_ao_buscar e])
    end.
Proof. reflexivity. Qed.

Lemma buscar_valid (resp : response) :
  Forall valid_row (rows_of (fst (buscar_dados_fundamentus resp))).
Proof.
  unfold buscar_dados_fundamentus.
  destruct (try_body resp) as [e|df] eqn:E; cbn; [constructor|].
  unfold try_body in E.
  destruct (requests_get resp) as [|text]; cbn in E; [discriminate|].
  destruct (read_html text) as [|tabelas]; cbn in E; [discriminate|].
  destruct (first_table tabelas) as [|t]; cbn in E; [discriminate|].
  destruct (set_columns t) as [|rows]; cbn in E; [discriminate|].
  eapply normalize_valid; eassumption.
Qed.

(** Tickers: the normaliser removes rows and never touches the column. *)
Lemma In_assemble_TICKER (df : list RawRow) (dy vac ffo cap : list float)
  (t : option string) :
  In t (map TICKER (assemble df dy vac ffo cap)) -> In t (map raw_TICKER df).
Proof.
  revert dy vac ffo cap.
  induction df as [|r df IH]; intros [|a dy] [|b vac] [|c ffo] [|d cap];
    cbn; try tauto.
  intros [H|H]; [now left|right; eapply IH; eassumption].
Qed.

Lemma NoDup_assemble_TICKER (df : list RawRow) (dy vac ffo cap : list float) :
  NoDup (map raw_TICKER df) ->
  NoDup (map TICKER (assemble df dy vac ffo cap)).
Proof.
  revert dy vac ffo cap.
  induction df as [|r df IH]; intros [|a dy] [|b vac] [|c ffo] [|d cap];
    cbn; intros H; try constructor.
  - inversion H; subst. intros Hin. apply In_assemble_TICKER in Hin. tauto.
  - inversion H; subst. now apply IH.
Qed.

Lemma NoDup_map_filter {A B : Type} (g : A -> B) (p : A -> bool)
  (l : list A) :
  NoDup (map g l) -> NoDup (map g (filter p l)).
Proof.
  induction l as [|a l IH]; cbn; intros H; [constructor|].
  inversion H; subst. destruct (p a); cbn; [|now apply IH].
  constructor; [|now apply IH].
  intros Hin. apply in_map_iff in Hin. destruct Hin as (a' & Ha' & Hin).
  apply filter_In in Hin. destruct Hin as [Hin _].
  match goal with Hn : ~ In (g a) _ |- _ => apply Hn end.
  rewrite <- Ha'. now apply in_map.
Qed.

Lemma normalize_NoDup (df : list RawRow) (out : DataFrame) :
  normalize df = Return out ->
  NoDup (map raw_TICKER df) -> NoDup (map TICKER out).
Proof.
  intros H Hnd. apply normalize_Return in H.
  destruct H as (dy & vac & ffo & cap & _ & _ & _ & _ & ->).
  unfold dropna. do 2 apply NoDup_map_filter.
  now apply NoDup_assemble_TICKER.
Qed.

(* ================================================================== *)
(** * Lists: [take], sortedness, permutations *)

Section ListFacts.

Context {A : Type}.

Lemma take_cons (l : list A) (i : nat) (ix : list nat) :
  take l (i :: ix) = at_index l i ++ take l ix.
Proof. reflexivity. Qed.

Lemma take_app (l : list A) (ix1 ix2 : list nat) :
  take l (ix1 ++ ix2) = take l ix1 ++ take l ix2.
Proof. apply flat_map_app. Qed.

Lemma take_seq_from (pre l : list A) :
  take (pre ++ l) (seq (List.length pre) (List.length l)) = l.
Proof.
  revert pre. induction l as [|a l IH]; intros pre; [reflexivity|].
  cbn [List.length seq]. rewrite take_cons. unfold at_index.
  rewrite nth_error_app2, Nat.sub_diag by lia. cbn.
  f_equal.
  replace (pre ++ a :: l) with ((pre ++ [a]) ++ l)
    by now rewrite <- app_assoc.
  replace (S (List.length pre)) with (List.length (pre ++ [a]))
    by (rewrite length_app; cbn; lia).
  apply IH.
Qed.

Lemma take_seq (l : list A) : take l (seq 0 (List.length l)) = l.
Proof. exact (take_seq_from [] l). Qed.

Lemma take_Permutation (l : list A) (ix ix' : list nat) :
  Permutation ix ix' -> Permutation (take l ix) (take l ix').
Proof. intros H. unfold take. now apply Permutation_flat_map. Qed.

Lemma take_all_Permutation (l : list A) (ix : list nat) :
  Permutation ix (seq 0 (List.length l)) -> Permutation (take l ix) l.
Proof.
  intros H. rewrite <- (take_seq l) at 2. now apply take_Permutation.
Qed.

Lemma rev_at_index (l : list A) (i : nat) : rev (at_index l i) = at_index l i.
Proof. unfold at_index. now destruct (nth_error l i). Qed.

Lemma take_rev (l : list A) (ix : list nat) :
  take l (rev ix) = rev (take l ix).
Proof.
  induction ix as [|i ix IH]; [reflexivity|].
  cbn [rev]. rewrite take_app, (take_cons l i ix), rev_app_distr, IH.
  rewrite rev_at_index, (take_cons l i []). cbn. now rewrite app_nil_r.
Qed.

Lemma nth_error_take (l : list A) (ix : list nat) (j : nat) :
  Forall (fun i => i < List.length l) ix ->
  nth_error (take l ix) j
  = match nth_error ix j with
    | Some i => nth_error l i
    | None => None
    end.
Proof.
  intros H. revert j. induction H as [|i ix Hi _ IH]; intros j.
  - now destruct j.
  - rewrite take_cons. unfold at_index.
    destruct (nth_error l i) as [x|] eqn:Ex.
    + destruct j; cbn; [now rewrite Ex|apply IH].
    + apply nth_error_None in Ex. lia.
Qed.

Lemma length_take (l : list A) (ix : list nat) :
  Forall (fun i => i < List.length l) ix ->
  List.length (take l ix) = List.length ix.
Proof.
  induction 1 as [|i ix Hi _ IH]; [reflexivity|].
  rewrite take_cons. unfold at_index.
  destruct (nth_error l i) eqn:Ex; [cbn; now rewrite IH|].
  apply nth_error_None in Ex. lia.
Qed.

Lemma StronglySorted_app (R : A -> A -> Prop) (l1 l2 : list A) :
  StronglySorted R l1 -> StronglySorted R l2 ->
  (forall x y, In x l1 -> In y l2 -> R x y) ->
  StronglySorted R (l1 ++ l2).
Proof.
  intros H1 H2 H. induction H1 as [|a l1 _ IH Ha]; [exact H2|].
  cbn. constructor.
  - apply IH. intros x y Hx Hy. apply H; [now right|assumption].
  - apply Forall_app. split; [assumption|].
    apply Forall_forall. intros y Hy. apply H; [now left|assumption].
Qed.

Lemma StronglySorted_rev (R : A -> A -> Prop) (l : list A) :
  StronglySorted R l -> StronglySorted (fun x y => R y x) (rev l).
Proof.
  induction 1 as [|a l _ IH Ha]; [constructor|].
  cbn. apply StronglySorted_app; [assumption|repeat constructor|].
  intros x y Hx [<-|[]]. apply in_rev in Hx.
  rewrite Forall_forall in Ha. now apply Ha.
Qed.

Lemma filter_all (p : A -> bool) (l : list A) :
  (forall a, In a l -> p a = true) -> filter p l = l.
Proof.
  intros H. rewrite (filter_ext_in p (fun _ => true) l H).
  apply filter_true.
Qed.

Lemma filter_none (p : A -> bool) (l : list A) :
  (forall a, In a l -> p a = false) -> filter p l = [].
Proof.
  intros H. rewrite (filter_ext_in p (fun _ => false) l H).
  apply filter_false.
Qed.

Lemma filter_split_Permutation (p q : A -> bool) (l : list A) :
  (forall a, q a = negb (p a)) ->
  Permutation (filter p l ++ filter q l) l.
Proof.
  intros Hq. induction l as [|a l IH]; [constructor|].
  cbn. rewrite Hq. destruct (p a); cbn.
  - now constructor.
  - symmetry. apply Permutation_cons_app. now symmetry.
Qed.

End ListFacts.

Lemma take_map {A B : Type} (f : A -> B) (l : list A) (ix : list nat) :
  map f (take l ix) = take (map f l) ix.
Proof.
  induction ix as [|i ix IH]; [reflexivity|].
  rewrite !take_cons, map_app, IH. f_equal.
  unfold at_index. rewrite nth_error_map.
  now destruct (nth_error l i).
Qed.

Lemma take_take {A : Type} (l : list A) (ix p : list nat) :
  Forall (fun i => i < List.length l) ix ->
  take l (take ix p) = take (take l ix) p.
Proof.
  intros H. induction p as [|j p IH]; [reflexivity|].
  rewrite !take_cons, take_app, IH. f_equal.
  unfold at_index at 2. rewrite nth_error_take by assumption.
  unfold at_index at 1.
  destruct (nth_error ix j) as [i|]; [|reflexivity].
  rewrite take_cons. cbn. apply app_nil_r.
Qed.

Lemma StronglySorted_map {A B : Type} (f : A -> B) (R : B -> B -> Prop)
  (l : list A) :
  StronglySorted R (map f l) <-> StronglySorted (fun x y => R (f x) (f y)) l.
Proof.
  induction l as [|a l IH]; cbn.
  - split; constructor.
  - split; intros H; apply StronglySorted_inv in H; destruct H as [H1 H2];
      (constructor; [now apply IH|]).
    + rewrite Forall_map in H2. exact H2.
    + rewrite Forall_map. exact H2.
Qed.

Lemma map_fst_combine {A B : Type} (l : list A) (l' : list B) :
  List.length l = List.length l' -> map fst (combine l l') = l.
Proof.
  revert l'. induction l as [|a l IH]; intros [|b l'] H;
    cbn in *; try discriminate; [reflexivity|].
  f_equal. apply IH. lia.
Qed.

Lemma map_snd_combine {A B : Type} (l : list A) (l' : list B) :
  List.length l = List.length l' -> map snd (combine l l') = l'.
Proof.
  revert l'. induction l as [|a l IH]; intros [|b l'] H;
    cbn in *; try discriminate; [reflexivity|].
  f_equal. apply IH. lia.
Qed.

(* ================================================================== *)
(** * Properties of [nargsort] and [sort_values] *)

Section SortValues.

Context (np : Argsort) {K : Type} (leb : K -> K -> bool) (isna : K -> bool).

Lemma seq_bounded (n : nat) : Forall (fun i => i < n) (seq 0 n).
Proof. apply Forall_forall. intros i Hi. apply in_seq in Hi. lia. Qed.

(** The indexer is a permutation of the positions, whatever the keys. *)
Lemma nargsort_Permutation (items : list K) (ascending : bool) :
  Permutation (nargsort np leb isna items ascending)
              (seq 0 (List.length items)).
Proof.
  unfold nargsort.
  set (P := combine (seq 0 (List.length items)) items).
  set (pres := filter (fun p => negb (isna (snd p))) P).
  set (nans := filter (fun p => isna (snd p)) P).
  assert (HP : map fst P = seq 0 (List.length items))
    by (apply map_fst_combine; now rewrite length_seq).
  assert (Hsplit : Permutation (map fst pres ++ map fst nans)
                               (seq 0 (List.length items))).
  { rewrite <- HP, <- map_app. apply Permutation_map.
    apply filter_split_Permutation. intros a. now rewrite negb_involutive. }
  etransitivity; [|exact Hsplit].
  apply Permutation_app_tail.
  destruct ascending.
  - apply take_all_Permutation.
    rewrite length_map, <- (length_map snd). apply argsort_permutation.
  - etransitivity; [symmetry; apply Permutation_rev|].
    etransitivity; [|symmetry; apply Permutation_rev].
    apply take_all_Permutation.
    rewrite length_rev, length_map, <- (length_map snd), <- length_rev.
    apply argsort_permutation.
Qed.

(** With no missing key, a descending [nargsort] is: reverse, sort,
    reverse. *)
Lemma nargsort_desc_no_missing (items : list K) :
  (forall x, In x items -> isna x = false) ->
  nargsort np leb isna items false
  = rev (take (rev (seq 0 (List.length items)))
              (argsort np K leb (rev items))).
Proof.
  intros H. unfold nargsort.
  set (P := combine (seq 0 (List.length items)) items).
  assert (Hp : forall p, In p P -> isna (snd p) = false).
  { intros [i x] Hin. apply in_combine_r in Hin. now apply H. }
  rewrite (filter_all (fun p => negb (isna (snd p))) P)
    by (intros p Hin; now rewrite Hp).
  rewrite (filter_none (fun p => isna (snd p)) P) by exact Hp.
  unfold P. rewrite map_fst_combine, map_snd_combine
    by now rewrite length_seq.
  cbn. apply app_nil_r.
Qed.

(** The keys in the order of that indexer: the sorted keys, reversed. *)
Lemma take_nargsort_desc (items : list K) :
  (forall x, In x items -> isna x = false) ->
  take items (nargsort np leb isna items false)
  = rev (take (rev items) (argsort np K leb (rev items))).
Proof.
  intros H. rewrite nargsort_desc_no_missing by assumption.
  rewrite take_rev. f_equal.
  rewrite take_take.
  - now rewrite take_rev, take_seq.
  - apply Forall_rev, seq_bounded.
Qed.

Context {A : Type} (by_ : A -> K).

Lemma sort_values_Permutation (ascending : bool) (df : list A) :
  Permutation df (sort_values np leb isna by_ ascending df).
Proof.
  unfold sort_values. symmetry. apply take_all_Permutation.
  rewrite <- (length_map by_). apply nargsort_Permutation.
Qed.

Lemma sort_values_In (ascending : bool) (df : list A) (r : A) :
  In r (sort_values np leb isna by_ ascending df) <-> In r df.
Proof.
  split; apply Permutation_in;
    [symmetry|]; apply sort_values_Permutation.
Qed.


(** A descending sort on keys none of which is missing leaves every row
    before the rows of smaller or equal key. *)
Lemma sort_values_desc_sorted (df : list A) :
  total leb -> transitive leb ->
  (forall r, In r df -> isna (by_ r) = false) ->
  StronglySorted (fun r1 r2 => leb (by_ r2) (by_ r1) = true)
                 (sort_values np leb isna by_ false df).
Proof.
  intros Htot Htrans Hna.
  apply (StronglySorted_map by_ (fun k1 k2 => leb k2 k1 = true)).
  unfold sort_values. rewrite take_map, take_nargsort_desc.
  - apply StronglySorted_rev. now apply argsort_sorts.
  - intros x Hx. apply in_map_iff in Hx. destruct Hx as (r & <- & Hr).
    now apply Hna.
Qed.

End SortValues.

(* ================================================================== *)
(** * The orders handed to [argsort] *)

Lemma Qle_bool_total (a b : Q) : Qle_bool a b = true \/ Qle_bool b a = true.
Proof.
  destruct (Qlt_le_dec a b) as [H|H]; [left|right];
    apply Qle_bool_iff; [now apply Qlt_le_weak|assumption].
Qed.

Lemma fle_trans (x y z : float) :
  fle x y = true -> fle y z = true -> fle x z = true.
Proof.
  destruct x as [|[]|a], y as [|[]|b], z as [|[]|c]; cbn;
    try reflexivity; try discriminate.
  rewrite !Qle_bool_iff. apply Qle_trans.
Qed.

Lemma fle_total (x y : float) :
  isnan x = false -> isnan y = false -> fle x y = true \/ fle y x = true.
Proof.
  destruct x as [|[]|a], y as [|[]|b]; cbn; try discriminate; auto.
  intros _ _. apply Qle_bool_total.
Qed.

Lemma fle_refl (x : float) : isnan x = false -> fle x x = true.
Proof.
  intros H. destruct (fle_total x x H H); assumption.
Qed.

Lemma fle_notnan (x y : float) :
  fle x y = true -> isnan x = false /\ isnan y = false.
Proof. destruct x as [|[]|a], y as [|[]|b]; cbn; auto; discriminate. Qed.

Lemma np_le_total : total np_le.
Proof.
  intros x y. unfold np_le.
  destruct (isnan y) eqn:Ey; [left; apply orb_true_r|].
  destruct (isnan x) eqn:Ex; [right; apply orb_true_r|].
  rewrite !orb_false_r. now apply fle_total.
Qed.

Lemma np_le_transitive : transitive np_le.
Proof.
  intros x y z. unfold np_le.
  destruct (isnan z) eqn:Ez; [intros _ _; apply orb_true_r|].
  rewrite !orb_false_r. intros Hxy Hyz.
  destruct (fle_notnan _ _ Hyz) as [Ey _]. rewrite Ey, orb_false_r in Hxy.
  eapply fle_trans; eassumption.
Qed.

Lemma Nat_leb_total : total Nat.leb.
Proof.
  intros x y. destruct (Nat.le_ge_cases x y); [left|right];
    now apply Nat.leb_le.
Qed.

Lemma Nat_leb_transitive : transitive Nat.leb.
Proof.
  intros x y z. rewrite !Nat.leb_le. lia.
Qed.

(* ================================================================== *)
(** * Two sorts that [argsort] may be

    Both are insertion sorts of the positions by their keys.  The first
    keeps equal keys in their order (a stable sort, as
    [kind='stable']); the second puts a position after those of equal
    key already placed, and so reverses them.  Both return "the indices
    that would sort this array". *)

Section Insertion.

Context {K : Type} (before : K -> K -> bool).

Lemma insert_Permutation (p : nat * K) (l : list (nat * K)) :
  Permutation (insert before p l) (p :: l).
Proof.
  induction l as [|q l IH]; cbn; [reflexivity|].
  destruct (before (snd p) (snd q)); [reflexivity|].
  rewrite IH. apply perm_swap.
Qed.

Lemma insertion_sort_Permutation (l : list (nat * K)) :
  Permutation (insertion_sort before l) l.
Proof.
  induction l as [|p l IH]; cbn; [reflexivity|].
  rewrite insert_Permutation. now constructor.
Qed.

Lemma insertion_argsort_Permutation (a : list K) :
  Permutation (insertion_argsort before a) (seq 0 (List.length a)).
Proof.
  unfold insertion_argsort.
  rewrite <- (map_fst_combine (seq 0 (List.length a)) a) at 2
    by now rewrite length_seq.
  apply Permutation_map, insertion_sort_Permutation.
Qed.

Context (leb : K -> K -> bool).
Hypothesis before_le : forall x y, before x y = true -> leb x y = true.
Hypothesis not_before_ge : forall x y, before x y = false -> leb y x = true.
Hypothesis leb_transitive : transitive leb.

Let by_key (p q : nat * K) : Prop := leb (snd p) (snd q) = true.

Lemma insert_sorted (p : nat * K) (l : list (nat * K)) :
  StronglySorted by_key l -> StronglySorted by_key (insert before p l).
Proof.
  induction 1 as [|q l Hl IH Hq]; cbn; [repeat constructor|].
  destruct (before (snd p) (snd q)) eqn:E.
  - constructor; [now constructor|].
    apply before_le in E. constructor; [exact E|].
    eapply Forall_impl; [|exact Hq].
    intros r Hr. eapply leb_transitive; eassumption.
  - constructor; [exact IH|].
    apply (Permutation_Forall (x := p :: l));
      [symmetry; apply insert_Permutation|].
    constructor; [now apply not_before_ge|exact Hq].
Qed.

Lemma insertion_sort_sorted (l : list (nat * K)) :
  StronglySorted by_key (insertion_sort before l).
Proof.
  induction l as [|p l IH]; cbn; [constructor|now apply insert_sorted].
Qed.

Lemma combine_seq_nth_error (pre a : list K) :
  Forall (fun p => nth_error (pre ++ a) (fst p) = Some (snd p))
         (combine (seq (List.length pre) (List.length a)) a).
Proof.
  revert pre. induction a as [|x a IH]; intros pre; cbn; constructor.
  - cbn. now rewrite nth_error_app2, Nat.sub_diag by lia.
  - specialize (IH (pre ++ [x])).
    rewrite <- app_assoc, length_app in IH. cbn in IH.
    now rewrite Nat.add_1_r in IH.
Qed.

Lemma take_positions (a : list K) (l : list (nat * K)) :
  Forall (fun p => nth_error a (fst p) = Some (snd p)) l ->
  take a (map fst l) = map snd l.
Proof.
  induction 1 as [|p l Hp _ IH]; [reflexivity|].
  cbn [map]. rewrite take_cons. unfold at_index. now rewrite Hp, IH.
Qed.

Lemma insertion_argsort_sorts (a : list K) :
  StronglySorted (fun x y => leb x y = true) (take a (insertion_argsort before a)).
Proof.
  unfold insertion_argsort. rewrite take_positions.
  - apply StronglySorted_map. apply insertion_sort_sorted.
  - apply (Permutation_Forall (x := combine (seq 0 (List.length a)) a));
      [symmetry; apply insertion_sort_Permutation|].
    exact (combine_seq_nth_error [] a).
Qed.

End Insertion.

Lemma not_leb_ge {K : Type} (leb : K -> K -> bool) (x y : K) :
  total leb -> leb x y = false -> leb y x = true.
Proof. intros Htot E. destruct (Htot x y); congruence. Qed.

(** Equal keys keep their order. *)
Definition stable_argsort : Argsort :=
  {| argsort := fun K leb => insertion_argsort leb;
     argsort_permutation := fun K leb => insertion_argsort_Permutation leb;
     argsort_sorts := fun K leb a Htot Htrans =>
       insertion_argsort_sorts leb leb
         (fun x y H => H)
         (fun x y H => not_leb_ge leb x y Htot H)
         Htrans a |}.

(** Equal keys come out in the reverse of their order. *)
Definition reversing_argsort : Argsort :=
  {| argsort := fun K leb => insertion_argsort (fun x y => negb (leb y x));
     argsort_permutation := fun K leb =>
       insertion_argsort_Permutation (fun x y => negb (leb y x));
     argsort_sorts := fun K leb a Htot Htrans =>
       insertion_argsort_sorts (fun x y => negb (leb y x)) leb
         (fun x y H => not_leb_ge leb y x Htot (proj1 (negb_true_iff _) H))
         (fun x y H => proj1 (negb_false_iff _) H)
         Htrans a |}.

(* ================================================================== *)
(** * The order of the group keys *)

Lemma ascii_compare_Lt_trans (a b c : ascii) :
  Ascii.compare a b = Lt -> Ascii.compare b c = Lt -> Ascii.compare a c = Lt.
Proof.
  unfold Ascii.compare. rewrite !N.compare_lt_iff. apply N.lt_trans.
Qed.

Lemma string_compare_refl (s : string) : String.compare s s = Eq.
Proof.
  pose proof (String.compare_antisym s s) as H.
  destruct (String.compare s s); cbn in H; congruence.
Qed.

Lemma slt_irrefl (s : string) : ~ slt s s.
Proof. unfold slt. now rewrite string_compare_refl. Qed.

Lemma slt_trans (a b c : string) : slt a b -> slt b c -> slt a c.
Proof.
  unfold slt. revert b c.
  induction a as [|x a IH]; intros [|y b] [|z c]; cbn;
    try discriminate; try reflexivity.
  destruct (Ascii.compare x y) eqn:Exy; try discriminate;
    destruct (Ascii.compare y z) eqn:Eyz; try discriminate; intros Hab Hbc.
  - apply Ascii.compare_eq_iff in Exy, Eyz. subst.
    rewrite (proj2 (N.compare_eq_iff _ _) eq_refl : Ascii.compare z z = Eq).
    eapply IH; eassumption.
  - apply Ascii.compare_eq_iff in Exy. subst. now rewrite Eyz.
  - apply Ascii.compare_eq_iff in Eyz. subst. now rewrite Exy.
  - now rewrite (ascii_compare_Lt_trans _ _ _ Exy Eyz).
Qed.

Lemma slt_of_Gt (a b : string) : String.compare a b = Gt -> slt b a.
Proof.
  unfold slt. intros H. rewrite String.compare_antisym, H. reflexivity.
Qed.

Lemma slt_neq (a b : string) : slt a b -> a <> b.
Proof. intros H ->. now apply slt_irrefl in H. Qed.

Lemma sorted_keys_NoDup (keys : list string) :
  StronglySorted slt keys -> NoDup keys.
Proof.
  induction 1 as [|k keys _ IH Hk]; constructor; [|exact IH].
  intros Hin. rewrite Forall_forall in Hk.
  now apply Hk, slt_irrefl in Hin.
Qed.

(* ================================================================== *)
(** * Properties of the grouping *)

Lemma upsert_keys (k : string) (r : FundRecord)
  (groups : list (string * group_acc)) (x : string) :
  In x (map fst (upsert k r groups)) <-> x = k \/ In x (map fst groups).
Proof.
  induction groups as [|[k' a] rest IH]; cbn.
  - intuition congruence.
  - destruct (String.compare k k') eqn:E; cbn.
    + apply String.compare_eq_iff in E. subst. intuition congruence.
    + intuition congruence.
    + rewrite IH. intuition congruence.
Qed.

Lemma upsert_sorted (k : string) (r : FundRecord)
  (groups : list (string * group_acc)) :
  StronglySorted slt (map fst groups) ->
  StronglySorted slt (map fst (upsert k r groups)).
Proof.
  induction groups as [|[k' a] rest IH]; cbn; intros H.
  - repeat constructor.
  - apply StronglySorted_inv in H. destruct H as [Hrest Hk'].
    destruct (String.compare k k') eqn:E; cbn.
    + now constructor.
    + constructor; [now constructor|].
      constructor; [exact E|].
      eapply Forall_impl; [|exact Hk'].
      intros x Hx. eapply slt_trans; eassumption.
    + constructor; [now apply IH|].
      apply Forall_forall. intros x Hx. apply upsert_keys in Hx.
      destruct Hx as [->|Hx]; [now apply slt_of_Gt|].
      rewrite Forall_forall in Hk'. now apply Hk'.
Qed.

Lemma find_group_None (k : string) (groups : list (string * group_acc)) :
  find_group k groups = None <-> ~ In k (map fst groups).
Proof.
  induction groups as [|[k' a] rest IH]; cbn; [tauto|].
  destruct (String.eqb_spec k k'); [subst|]; intuition congruence.
Qed.

Lemma find_group_In (k : string) (a : group_acc)
  (groups : list (string * group_acc)) :
  NoDup (map fst groups) ->
  In (k, a) groups <-> find_group k groups = Some a.
Proof.
  induction groups as [|[k' a'] rest IH]; cbn; intros H.
  - intuition discriminate.
  - inversion H; subst.
    destruct (String.eqb_spec k k') as [->|Hne].
    + split; [|intros [= ->]; now left].
      intros [[= ->]|Hin]; [reflexivity|].
      exfalso. match goal with Hn : ~ In _ _ |- _ => apply Hn end.
      change k' with (fst (k', a)). now apply in_map.
    + rewrite <- IH by assumption. intuition congruence.
Qed.

Lemma find_upsert_same (k : string) (r : FundRecord)
  (groups : list (string * group_acc)) :
  StronglySorted slt (map fst groups) ->
  find_group k (upsert k r groups)
  = Some (acc_add r (or_empty (find_group k groups))).
Proof.
  induction groups as [|[k' a] rest IH]; cbn; intros H.
  - now rewrite String.eqb_refl.
  - apply StronglySorted_inv in H. destruct H as [Hrest Hk'].
    destruct (String.compare k k') eqn:E; cbn.
    + apply String.compare_eq_iff in E. subst. now rewrite String.eqb_refl.
    + rewrite String.eqb_refl.
      destruct (String.eqb_spec k k') as [->|_];
        [now rewrite string_compare_refl in E|].
      replace (find_group k rest) with (@None group_acc); [reflexivity|].
      symmetry. apply find_group_None. intros Hin.
      rewrite Forall_forall in Hk'. apply Hk' in Hin.
      exact (slt_irrefl k (slt_trans _ _ _ E Hin)).
    + destruct (String.eqb_spec k k') as [->|_];
        [now rewrite string_compare_refl in E|].
      now apply IH.
Qed.

Lemma find_upsert_other (k k0 : string) (r : FundRecord)
  (groups : list (string * group_acc)) :
  k <> k0 -> find_group k (upsert k0 r groups) = find_group k groups.
Proof.
  intros Hne. induction groups as [|[k' a] rest IH]; cbn.
  - now destruct (String.eqb_spec k k0).
  - destruct (String.compare k0 k') eqn:E; cbn.
    + apply String.compare_eq_iff in E. subst.
      now destruct (String.eqb_spec k k').
    + now destruct (String.eqb_spec k k0).
    + now rewrite IH.
Qed.

Lemma upsert_count (k : string) (r : FundRecord)
  (groups : list (string * group_acc)) :
  list_sum (map (fun g => acc_count (snd g)) (upsert k r groups))
  = list_sum (map (fun g => acc_count (snd g)) groups)
    + (if has_ticker r then 1 else 0).
Proof.
  unfold has_ticker.
  induction groups as [|[k' a] rest IH]; cbn.
  - destruct (TICKER r); lia.
  - unfold list_sum in IH.
    destruct (String.compare k k'); cbn; [| |rewrite IH];
      destruct (TICKER r); lia.
Qed.

Lemma groupby_agg_snoc (df : DataFrame) (r : FundRecord) :
  groupby_agg (df ++ [r])
  = match SEGMENTO r with
    | Some k => upsert k r (groupby_agg df)
    | None => groupby_agg df
    end.
Proof. unfold groupby_agg. now rewrite fold_left_app. Qed.

Lemma group_rows_snoc (k : string) (df : DataFrame) (r : FundRecord) :
  group_rows k (df ++ [r])
  = group_rows k df ++ (if has_segment k r then [r] else []).
Proof. unfold group_rows. now rewrite filter_app. Qed.

Lemma acc_of_snoc (l : DataFrame) (r : FundRecord) :
  acc_of (l ++ [r]) = acc_add r (acc_of l).
Proof. unfold acc_of. now rewrite fold_left_app. Qed.

(** What the pass over the rows leaves: the keys in increasing order, and
    for every key the accumulator of exactly its rows. *)
Lemma groupby_agg_spec (df : DataFrame) :
  StronglySorted slt (map fst (groupby_agg df))
  /\ (forall k, find_group k (groupby_agg df)
                = match group_rows k df with
                  | [] => None
                  | l => Some (acc_of l)
                  end)
  /\ list_sum (map (fun g => acc_count (snd g)) (groupby_agg df))
     = List.length (filter (fun r => grouped r && has_ticker r) df).
Proof.
  induction df as [|r df (Hs & Hf & Hc)] using rev_ind.
  - cbn. repeat split; constructor.
  - rewrite groupby_agg_snoc, filter_app, length_app.
    unfold grouped at 2. cbn [filter].
    destruct (SEGMENTO r) as [k0|] eqn:Er.
    + split; [now apply upsert_sorted|]. split.
      * intros k. rewrite group_rows_snoc. unfold has_segment. rewrite Er.
        destruct (String.eqb_spec k0 k) as [->|Hne].
        -- rewrite find_upsert_same, Hf by assumption.
           destruct (group_rows k df) as [|r0 l] eqn:El; cbn [app or_empty].
           ++ reflexivity.
           ++ rewrite <- acc_of_snoc. reflexivity.
        -- rewrite find_upsert_other, Hf, app_nil_r by congruence.
           reflexivity.
      * rewrite upsert_count, Hc. cbn [andb].
        destruct (has_ticker r); cbn; lia.
    + split; [assumption|]. split.
      * intros k. rewrite group_rows_snoc. unfold has_segment. rewrite Er.
        now rewrite app_nil_r.
      * cbn. lia.
Qed.

(* ================================================================== *)
(** * Counts and means of a group *)

Lemma mean_add_fold (l : list float) (a : mean_acc) :
  fold_left (fun a x => mean_add x a) l a
  = (fold_left fadd (filter notnan l) (fst a),
     snd a + List.length (filter notnan l)).
Proof.
  revert a. induction l as [|x l IH]; intros [s n]; cbn.
  - now rewrite Nat.add_0_r.
  - rewrite IH. unfold mean_add, notnan.
    destruct (isnan x); cbn; [reflexivity|].
    f_equal. lia.
Qed.

Lemma mean_result_fold (l : list float) :
  mean_result (fold_left (fun a x => mean_add x a) l (F 0, 0))
  = mean (filter notnan l).
Proof.
  rewrite mean_add_fold. unfold mean_result, mean, fsum. cbn [fst snd].
  now destruct (filter notnan l).
Qed.

Section AccFields.

Variable l : DataFrame.

Lemma acc_count_fold (a : group_acc) :
  acc_count (fold_left (fun a r => acc_add r a) l a)
  = acc_count a + List.length (filter has_ticker l).
Proof.
  revert a. induction l as [|r l' IH]; intros a; cbn; [lia|].
  rewrite IH. unfold has_ticker. cbn. destruct (TICKER r); cbn; lia.
Qed.

Lemma acc_dy_fold (a : group_acc) :
  acc_dy (fold_left (fun a r => acc_add r a) l a)
  = fold_left (fun m x => mean_add x m) (map DIVIDEND_YIELD l) (acc_dy a).
Proof. revert a. induction l as [|r l' IH]; intros a; cbn; [|rewrite IH]; reflexivity. Qed.

Lemma acc_pvp_fold (a : group_acc) :
  acc_pvp (fold_left (fun a r => acc_add r a) l a)
  = fold_left (fun m x => mean_add x m) (map P_VP l) (acc_pvp a).
Proof. revert a. induction l as [|r l' IH]; intros a; cbn; [|rewrite IH]; reflexivity. Qed.

Lemma acc_vac_fold (a : group_acc) :
  acc_vac (fold_left (fun a r => acc_add r a) l a)
  = fold_left (fun m x => mean_add x m) (map VACANCIA_MEDIA l) (acc_vac a).
Proof. revert a. induction l as [|r l' IH]; intros a; cbn; [|rewrite IH]; reflexivity. Qed.

Lemma acc_liq_fold (a : group_acc) :
  acc_liq (fold_left (fun a r => acc_add r a) l a)
  = fold_left (fun m x => mean_add x m) (map LIQUIDEZ l) (acc_liq a).
Proof. revert a. induction l as [|r l' IH]; intros a; cbn; [|rewrite IH]; reflexivity. Qed.

End AccFields.

Lemma summary_acc_of (k : string) (df : DataFrame) :
  summary (k, acc_of (group_rows k df)) = summary_of k df.
Proof.
  unfold summary, summary_of, acc_of. cbn [fst snd].
  rewrite acc_count_fold, acc_dy_fold, acc_pvp_fold, acc_vac_fold,
    acc_liq_fold.
  cbn [acc_empty acc_count acc_dy acc_pvp acc_vac acc_liq].
  now rewrite !mean_result_fold.
Qed.

Lemma group_rows_nonempty (k : string) (df : DataFrame) :
  group_rows k df <> [] <-> exists r, In r df /\ SEGMENTO r = Some k.
Proof.
  unfold group_rows. split.
  - destruct (filter (has_segment k) df) as [|r l] eqn:E; [congruence|].
    intros _. exists r.
    assert (Hin : In r (filter (has_segment k) df)) by (rewrite E; now left).
    apply filter_In in Hin. destruct Hin as [Hin Hk]. split; [exact Hin|].
    unfold has_segment in Hk. destruct (SEGMENTO r) as [k'|]; [|discriminate].
    apply String.eqb_eq in Hk. now subst.
  - intros (r & Hin & Hk) E.
    assert (H : In r (filter (has_segment k) df)).
    { apply filter_In. split; [exact Hin|]. unfold has_segment.
      rewrite Hk. apply String.eqb_refl. }
    now rewrite E in H.
Qed.

(** The table before it is sorted: one summary per segment present, each
    computed from exactly the rows of its segment. *)
Lemma In_groupby_agg (df : DataFrame) (g : string * group_acc) :
  In g (groupby_agg df)
  <-> group_rows (fst g) df <> []
      /\ snd g = acc_of (group_rows (fst g) df).
Proof.
  destruct (groupby_agg_spec df) as (Hs & Hf & _).
  destruct g as [k a]. cbn [fst snd].
  rewrite find_group_In by now apply sorted_keys_NoDup.
  rewrite Hf. destruct (group_rows k df); split.
  - discriminate.
  - now intros [? _].
  - intros [= <-]. split; [discriminate|reflexivity].
  - intros [_ ->]. reflexivity.
Qed.

Lemma In_summaries (df : DataFrame) (s : SegmentSummary) :
  In s (map summary (groupby_agg df))
  <-> group_rows (segmento s) df <> [] /\ s = summary_of (segmento s) df.
Proof.
  rewrite in_map_iff. split.
  - intros ([k a] & <- & Hin). apply In_groupby_agg in Hin.
    cbn [fst snd] in Hin. destruct Hin as [Hne ->].
    rewrite summary_acc_of. cbn [segmento summary fst].
    split; [exact Hne|reflexivity].
  - intros [Hne Hs].
    exists (segmento s, acc_of (group_rows (segmento s) df)). split.
    + rewrite summary_acc_of. now symmetry.
    + apply In_groupby_agg. cbn [fst snd]. now split.
Qed.

Lemma summaries_segments (df : DataFrame) :
  map segmento (map summary (groupby_agg df)) = map fst (groupby_agg df).
Proof. rewrite map_map. reflexivity. Qed.

Lemma summaries_counts (df : DataFrame) :
  map FIIs_Contagem (map summary (groupby_agg df))
  = map (fun g => acc_count (snd g)) (groupby_agg df).
Proof. rewrite map_map. reflexivity. Qed.

Lemma In_segments (df : DataFrame) (k : string) :
  In k (map fst (groupby_agg df))
  <-> exists r, In r df /\ SEGMENTO r = Some k.
Proof.
  rewrite <- group_rows_nonempty.
  destruct (groupby_agg_spec df) as (_ & Hf & _).
  specialize (Hf k).
  split.
  - intros Hin E. rewrite E in Hf. now apply find_group_None in Hf.
  - intros Hne. destruct (group_rows k df); [congruence|].
    destruct (in_dec string_dec k (map fst (groupby_agg df))) as [H|H];
      [exact H|].
    apply find_group_None in H. congruence.
Qed.

(** Rows whose metrics are present: no value is skipped by a mean. *)
Lemma notnan_all (g : FundRecord -> float) (l : DataFrame) :
  (forall r, In r l -> isnan (g r) = false) ->
  filter notnan (map g l) = map g l.
Proof.
  intros H. apply filter_all. intros x Hx.
  apply in_map_iff in Hx. destruct Hx as (r & <- & Hr).
  unfold notnan. now rewrite H.
Qed.

(* ================================================================== *)
(** * Properties of the filter *)

Lemma flt_fle (x y : float) : flt x y = true -> fle x y = true.
Proof.
  unfold flt. intros H.
  apply andb_prop in H. destruct H as [H Hle].
  apply andb_prop in H. destruct H as [Hx Hy].
  apply negb_true_iff in Hx, Hy, Hle.
  destruct (fle_total x y Hx Hy); congruence.
Qed.

Lemma not_flt_fle (x y : float) :
  isnan x = false -> isnan y = false -> flt x y = false -> fle y x = true.
Proof.
  unfold flt. intros -> ->. cbn. now intros H%negb_false_iff.
Qed.

Lemma series_min_le (s : list float) (x : float) :
  (forall y, In y s -> isnan y = false) ->
  In x s -> fle (series_min s) x = true.
Proof.
  revert x. induction s as [|y s IH]; intros x Hna Hin; [destruct Hin|].
  assert (Hy : isnan y = false) by (apply Hna; now left).
  assert (Hs : forall z, In z s -> fle (series_min s) z = true).
  { intros z Hz. apply IH; [|exact Hz]. intros w Hw. apply Hna. now right. }
  cbn. rewrite Hy.
  destruct (isnan (series_min s)) eqn:Em.
  - destruct Hin as [<-|Hin]; [now apply fle_refl|].
    apply Hs, fle_notnan in Hin. destruct Hin. congruence.
  - destruct (flt (series_min s) y) eqn:El.
    + destruct Hin as [<-|Hin]; [now apply flt_fle|now apply Hs].
    + apply not_flt_fle in El; try assumption.
      destruct Hin as [<-|Hin]; [now apply fle_refl|].
      eapply fle_trans; [exact El|now apply Hs].
Qed.

Lemma series_max_ge (s : list float) (x : float) :
  (forall y, In y s -> isnan y = false) ->
  In x s -> fle x (series_max s) = true.
Proof.
  revert x. induction s as [|y s IH]; intros x Hna Hin; [destruct Hin|].
  assert (Hy : isnan y = false) by (apply Hna; now left).
  assert (Hs : forall z, In z s -> fle z (series_max s) = true).
  { intros z Hz. apply IH; [|exact Hz]. intros w Hw. apply Hna. now right. }
  cbn. rewrite Hy.
  destruct (isnan (series_max s)) eqn:Em.
  - destruct Hin as [<-|Hin]; [now apply fle_refl|].
    apply Hs, fle_notnan in Hin. destruct Hin. congruence.
  - unfold fgt. destruct (flt y (series_max s)) eqn:El.
    + destruct Hin as [<-|Hin]; [now apply flt_fle|now apply Hs].
    + apply not_flt_fle in El; try assumption.
      destruct Hin as [<-|Hin]; [now apply fle_refl|].
      eapply fle_trans; [now apply Hs|exact El].
Qed.

Lemma mask_true (c : FilterCriteria) (r : FundRecord) :
  mask c r = true <->
  fge (DIVIDEND_YIELD r) (dy_min c) = true
  /\ fle (P_VP r) (pvp_max c) = true
  /\ fle (VACANCIA_MEDIA r) (vacancia_max c) = true
  /\ fge (LIQUIDEZ r) (liquidez_min c) = true.
Proof. unfold mask. rewrite !andb_true_iff. tauto. Qed.

Lemma mask_notnan (c : FilterCriteria) (r : FundRecord) :
  mask c r = true -> isnan (DIVIDEND_YIELD r) = false.
Proof.
  intros H. apply mask_true in H. destruct H as [H _].
  unfold fge in H. now apply fle_notnan in H.
Qed.

Lemma StronglySorted_impl_In {A : Type} (R R' : A -> A -> Prop)
  (l : list A) :
  (forall x y, In x l -> In y l -> R x y -> R' x y) ->
  StronglySorted R l -> StronglySorted R' l.
Proof.
  intros H Hs. induction Hs as [|a l _ IH Ha]; constructor.
  - apply IH. intros x y Hx Hy. apply H; now right.
  - rewrite Forall_forall in *. intros y Hy.
    apply H; [now left|now right|now apply Ha].
Qed.

Lemma df_filtrado_Permutation (np : Argsort) (df_fii : DataFrame)
  (c : FilterCriteria) :
  Permutation (filter (mask c) df_fii) (df_filtrado np df_fii c).
Proof. apply sort_values_Permutation. Qed.

Lemma df_filtrado_In (np : Argsort) (df_fii : DataFrame)
  (c : FilterCriteria) (r : FundRecord) :
  In r (df_filtrado np df_fii c) <-> In r df_fii /\ mask c r = true.
Proof.
  unfold df_filtrado. rewrite sort_values_In. apply filter_In.
Qed.

Lemma df_filtrado_sorted (np : Argsort) (df_fii : DataFrame)
  (c : FilterCriteria) :
  StronglySorted
    (fun r1 r2 => fge (DIVIDEND_YIELD r1) (DIVIDEND_YIELD r2) = true)
    (df_filtrado np df_fii c).
Proof.
  assert (Hna : forall r, In r (filter (mask c) df_fii) ->
                          isnan (DIVIDEND_YIELD r) = false).
  { intros r Hr. apply filter_In in Hr. eapply mask_notnan, Hr. }
  eapply StronglySorted_impl_In;
    [|apply (sort_values_desc_sorted np np_le isnan DIVIDEND_YIELD);
      [exact np_le_total|exact np_le_transitive|exact Hna]].
  intros r1 r2 H1 _ H. cbn beta in H.
  apply sort_values_In, Hna in H1.
  unfold np_le in H. rewrite H1, orb_false_r in H. exact H.
Qed.

Lemma default_criteria_mask (df_fii : DataFrame) (r : FundRecord) :
  Forall valid_row df_fii -> In r df_fii ->
  mask (default_criteria df_fii) r = true.
Proof.
  intros Hv Hin. rewrite Forall_forall in Hv.
  assert (Hcol : forall (g : FundRecord -> float) y,
             (forall r', valid_row r' -> isnan (g r') = false) ->
             In y (map g df_fii) -> isnan y = false).
  { intros g y Hg Hy. apply in_map_iff in Hy.
    destruct Hy as (r' & <- & Hr'). now apply Hg, Hv. }
  apply mask_true. unfold default_criteria, fge. cbn.
  repeat split.
  - apply series_min_le; [|now apply in_map].
    intros y. apply Hcol. unfold valid_row. tauto.
  - apply series_max_ge; [|now apply in_map].
    intros y. apply Hcol. unfold valid_row. tauto.
  - apply series_max_ge; [|now apply in_map].
    intros y. apply Hcol. unfold valid_row. tauto.
  - apply series_min_le; [|now apply in_map].
    intros y. apply Hcol. unfold valid_row. tauto.
Qed.

(* ================================================================== *)
(** * Properties of the per-segment table *)

Lemma analise_segmento_Permutation (np : Argsort) (df : DataFrame) :
  Permutation (map summary (groupby_agg df)) (analise_segmento np df).
Proof. apply sort_values_Permutation. Qed.

Lemma analise_segmento_sorted (np : Argsort) (df : DataFrame) :
  StronglySorted (fun s1 s2 => FIIs_Contagem s2 <= FIIs_Contagem s1)
                 (analise_segmento np df).
Proof.
  eapply StronglySorted_impl_In;
    [|apply (sort_values_desc_sorted np Nat.leb (fun _ => false)
               FIIs_Contagem);
      [exact Nat_leb_total|exact Nat_leb_transitive|reflexivity]].
  intros s1 s2 _ _ H. now apply Nat.leb_le.
Qed.

(* ================================================================== *)
(** * The sample data *)

Lemma scenario_valid : Forall valid_row scenario.
Proof. repeat constructor. Qed.

Example normalize_sample :
  normalize [raw_HGLG11; raw_XPTO11; raw_KNRI11]
  = Return [converted raw_HGLG11 (F 8.9) (F 5.2) (F 8.51) (F 8.3);
            converted raw_KNRI11 (F 7.15) (F 3) (F 8.51) (F 8.3)].
Proof. vm_compute. reflexivity. Qed.

Example scenario_filter :
  df_filtrado stable_argsort scenario scenario_criteria = [fund_B; fund_A].
Proof. vm_compute. reflexivity. Qed.

Example scenario_aggregate :
  analise_segmento stable_argsort
    (df_filtrado stable_argsort scenario scenario_criteria)
  = [ {| segmento := "Shopping"; FIIs_Contagem := 2;
         DY_Medio := F 9.0; P_VP_Medio := F 1.05;
         Vacancia_Media := F 3.5; Liquidez_Medio := F 125000 |} ].
Proof. vm_compute. reflexivity. Qed.

(* ================================================================== *)
(** * The percent parser (C1) *)

(** The parser worded by the specification gives the four values of P1. *)
Example spec_parse_percent_P1 :
  spec_parse_percent "1.234,56%" = Return (F 1234.56)
  /\ spec_parse_percent "12,3%" = Return (F 12.3)
  /\ spec_parse_percent "" = Return NaN
  /\ spec_parse_percent "0%" = Return (F 0).
Proof. repeat split; vm_compute; reflexivity. Qed.

(** C1, as stated, fails on the cell ["1%2"]: no percent sign ends it, so
    stripping a trailing percent sign leaves ["1%2"], which is not a
    float; [clean_percent] removes the sign wherever it stands and the
    cell parses to [12.0]. *)
Lemma percent_sign_is_removed_anywhere :
  parse_percent (Str "1%2") = Return (F 12)
  /\ spec_parse_percent "1%2" = Raise (could_not_convert "1%2")
  /\ parse_percent (Str "1%2") <> spec_parse_percent "1%2".
Proof.
  assert (H1 : parse_percent (Str "1%2") = Return (F 12))
    by (vm_compute; reflexivity).
  assert (H2 : spec_parse_percent "1%2" = Raise (could_not_convert "1%2"))
    by (vm_compute; reflexivity).
  split; [exact H1|]. split; [exact H2|].
  rewrite H1, H2. discriminate.
Qed.

(** C1, as amended: for every textual cell the percent parser removes
    every ["."], turns every [","] into ["."], removes every ["%"]
    (wherever it stands, not only at the end), gives null for an empty
    remainder and otherwise parses the remainder as a float; a numeric
    cell passes through unchanged; and the four values of P1 hold. *)
Theorem parse_percent_correct :
  (forall s,
      parse_percent (Str s)
      = if String.eqb (clean_text s) "" then Return NaN
        else py_float (clean_text s))
  /\ (forall x, clean_percent (Num x) = Return (Num x))
  /\ (forall x, parse_percent (Num x) = Return x)
  /\ parse_percent (Str "1.234,56%") = Return (F 1234.56)
  /\ parse_percent (Str "12,3%") = Return (F 12.3)
  /\ parse_percent (Str "") = Return NaN
  /\ parse_percent (Str "0%") = Return (F 0).
Proof.
  split; [exact parse_percent_text|].
  repeat split; vm_compute; reflexivity.
Qed.

(** X4: on a cell that holds no percent sign, or none but a last one, the
    percent parser does what the specification words: there the sign it
    removes is the trailing one. *)
Theorem parse_percent_trailing_sign (s : string) :
  occurs "%" s = false ->
  parse_percent (Str s) = spec_parse_percent s
  /\ parse_percent (Str (s ++ "%")) = spec_parse_percent (s ++ "%").
Proof.
  intros H.
  assert (Ht : occurs "%" (Str.replace "," "." (Str.replace "." "" s))
               = false)
    by (repeat apply occurs_replace; [reflexivity|reflexivity|exact H]).
  rewrite !parse_percent_replace. unfold spec_parse_percent. cbn zeta.
  split.
  - now rewrite replace_absent, strip_trailing_percent_absent.
  - rewrite !replace_app.
    change (Str.replace "." "" "%") with "%".
    change (Str.replace "," "." "%") with "%".
    change (Str.replace "%" "" "%") with "".
    rewrite strip_trailing_percent_app, append_empty_r.
    now rewrite replace_absent.
Qed.

(** The cells ["12,3"] and ["12,3%"]. *)
Lemma parse_percent_trailing_sign_witness :
  parse_percent (Str "12,3") = spec_parse_percent "12,3"
  /\ parse_percent (Str "12,3%") = spec_parse_percent "12,3%".
Proof. exact (parse_percent_trailing_sign "12,3" eq_refl). Defined.

(* ================================================================== *)
(** * The normaliser's output (C2, C7, C9) *)

(** C2: every row of the data frame the normaliser returns has
    [DIVIDEND_YIELD], [P_VP], [VACANCIA_MEDIA] and [LIQUIDEZ] present and
    [LIQUIDEZ > 0]; the rows that fail this are the ones dropped; and the
    cells of [P_VP] and [LIQUIDEZ] never make the normaliser raise: one
    that does not parse becomes null, and whether a frame is returned
    depends on the percentage cells alone. *)
Theorem normalizer_rows_valid :
  (forall resp,
      Forall valid_row (rows_of (fst (buscar_dados_fundamentus resp))))
  /\ (forall df out,
         normalize df = Return out ->
         Forall valid_row out
         /\ exists dy vac ffo cap,
             out = filter (fun r => notna_critical r
                                    && fgt (LIQUIDEZ r) (F 0))
                          (assemble df dy vac ffo cap))
  /\ (forall s e, py_float s = Raise e -> to_numeric_coerce (Str s) = NaN)
  /\ (forall df, (exists out, normalize df = Return out)
                 <-> Forall percent_ok df).
Proof.
  split; [exact buscar_valid|]. split; [|split].
  - intros df out H. split; [eapply normalize_valid; eassumption|].
    apply normalize_Return in H.
    destruct H as (dy & vac & ffo & cap & _ & _ & _ & _ & ->).
    exists dy, vac, ffo, cap. unfold dropna.
    induction (assemble df dy vac ffo cap) as [|r l IH]; [reflexivity|].
    cbn. destruct (notna_critical r); cbn; [|exact IH].
    destruct (fgt (LIQUIDEZ r) (F 0)); now rewrite IH.
  - exact to_numeric_coerce_unparseable.
  - exact normalize_succeeds_iff.
Qed.

(** C7, the code at the failing input: the listing with a well-formed
    row and a row whose [DIVIDEND_YIELD] cell is a dash, a text that
    [pd.read_html] hands over.  Alone, the first row is returned; with the
    second row beside it nothing is returned at all: [float] raises inside
    [clean_percent], and the handler of line 56 answers with an empty
    frame and a message.  A row with a dash in [P_VP] and a text in
    [LIQUIDEZ] is dropped and the row beside it is kept. *)
Theorem unparseable_percent_aborts_refresh :
  buscar_dados_fundamentus (Page [listing [raw_HGLG11]])
  = (Normalized [converted raw_HGLG11 (F 8.9) (F 5.2) (F 8.51) (F 8.3)], [])
  /\ forallb handed_over
             [raw_DIVIDEND_YIELD raw_KNRI11_bad;
              raw_VACANCIA_MEDIA raw_KNRI11_bad;
              raw_FFO_YIELD raw_KNRI11_bad; raw_CAP_RATE raw_KNRI11_bad;
              raw_P_VP raw_KNRI11_bad; raw_LIQUIDEZ raw_KNRI11_bad]
     = true
  /\ raw_DIVIDEND_YIELD raw_KNRI11_bad = Str "-"
  /\ buscar_dados_fundamentus (Page [listing [raw_HGLG11; raw_KNRI11_bad]])
     = (pd_DataFrame,
        [("Erro ao buscar dados do Fundamentus. Detalhe: "
          ++ "could not convert string to float: '-'")%string])
  /\ buscar_dados_fundamentus
       (Page [listing [raw_HGLG11_text; raw_XPTO11]])
     = (Normalized
          [converted raw_HGLG11_text (F 8.9) (F 5.2) (F 8.51) (F 8.3)], [])
  /\ map P_VP
         (rows_of (fst (buscar_dados_fundamentus
                          (Page [listing [raw_HGLG11_text; raw_XPTO11]]))))
     = [F 1.02].
Proof. repeat split; vm_compute; reflexivity. Qed.

(** C9, as stated, fails on a listing that names a fund twice: both rows
    are kept. *)
Lemma duplicate_ticker_is_kept :
  map TICKER
      (rows_of (fst (buscar_dados_fundamentus
                       (Page [listing [raw_HGLG11; raw_HGLG11]]))))
  = [Some "HGLG11"; Some "HGLG11"]
  /\ ~ NoDup (map TICKER
                  (rows_of (fst (buscar_dados_fundamentus
                                   (Page [listing [raw_HGLG11;
                                                   raw_HGLG11]]))))).
Proof.
  assert (H : map TICKER
                  (rows_of (fst (buscar_dados_fundamentus
                                   (Page [listing [raw_HGLG11;
                                                   raw_HGLG11]]))))
              = [Some "HGLG11"; Some "HGLG11"])
    by (vm_compute; reflexivity).
  split; [exact H|]. rewrite H. intros Hnd.
  inversion Hnd as [|? ? Hnotin _]. apply Hnotin. now left.
Qed.

(** C9, as amended: the normaliser keeps tickers unique; if no two rows
    of the table share a ticker, no two rows of the data frame returned
    do.  (It removes rows and never compares tickers.) *)
Theorem normalizer_keeps_tickers_unique
  (labels : list string) (width : List.length labels = 13)
  (rows : list RawRow) (rest : list html_table) :
  NoDup (map raw_TICKER rows) ->
  NoDup (map TICKER
             (rows_of (fst (buscar_dados_fundamentus
                              (Page (Table13 labels width rows :: rest)))))).
Proof.
  intros H. rewrite buscar_Table13.
  destruct (normalize rows) as [e|df] eqn:E; cbn; [constructor|].
  eapply normalize_NoDup; eassumption.
Qed.

(** The listing HGLG11, XPTO11, KNRI11 names no fund twice, and neither
    does the data frame made of it. *)
Lemma normalizer_keeps_tickers_unique_witness :
  NoDup (map raw_TICKER [raw_HGLG11; raw_XPTO11; raw_KNRI11])
  /\ NoDup (map TICKER
                (rows_of (fst (buscar_dados_fundamentus
                                 (Page [listing [raw_HGLG11; raw_XPTO11;
                                                 raw_KNRI11]]))))).
Proof.
  assert (H : NoDup (map raw_TICKER [raw_HGLG11; raw_XPTO11; raw_KNRI11])).
  { repeat constructor; cbn; intuition discriminate. }
  split; [exact H|].
  exact (normalizer_keeps_tickers_unique
           columns eq_refl [raw_HGLG11; raw_XPTO11; raw_KNRI11] [] H).
Defined.

(* ================================================================== *)
(** * Failures of the refresh (C8) *)



(* ================================================================== *)
(** * The filter (C3, C4, C10) *)

(** C3: a record is in [df_filtrado] exactly when it is a record of the
    data frame with [DIVIDEND_YIELD >= dy_min], [P_VP <= pvp_max],
    [VACANCIA_MEDIA <= vacancia_max] and [LIQUIDEZ >= liquidez_min], a
    value equal to its bound passing; when no record passes, the result
    is the empty data frame. *)
Theorem filter_membership (np : Argsort) (df_fii : DataFrame)
  (c : FilterCriteria) :
  (forall r,
      In r (df_filtrado np df_fii c)
      <-> In r df_fii
          /\ fge (DIVIDEND_YIELD r) (dy_min c) = true
          /\ fle (P_VP r) (pvp_max c) = true
          /\ fle (VACANCIA_MEDIA r) (vacancia_max c) = true
          /\ fge (LIQUIDEZ r) (liquidez_min c) = true)
  /\ (forall r,
         In r df_fii ->
         feq (DIVIDEND_YIELD r) (dy_min c) = true ->
         feq (P_VP r) (pvp_max c) = true ->
         feq (VACANCIA_MEDIA r) (vacancia_max c) = true ->
         feq (LIQUIDEZ r) (liquidez_min c) = true ->
         In r (df_filtrado np df_fii c))
  /\ ((forall r, In r df_fii -> mask c r = false) ->
      df_filtrado np df_fii c = []).
Proof.
  split; [|split].
  - intros r. rewrite df_filtrado_In, mask_true. reflexivity.
  - intros r Hin H1 H2 H3 H4. apply df_filtrado_In. split; [exact Hin|].
    unfold feq in *. apply andb_prop in H1, H2, H3, H4.
    apply mask_true. unfold fge. tauto.
  - intros H. apply Permutation_nil.
    rewrite <- (filter_none (mask c) df_fii H) at 1.
    apply df_filtrado_Permutation.
Qed.

Example ties_with_a_stable_sort :
  df_filtrado stable_argsort [fund_A; fund_A'; fund_B]
              (default_criteria [fund_A; fund_A'; fund_B])
  = [fund_B; fund_A; fund_A'].
Proof. vm_compute. reflexivity. Qed.

Example ties_with_another_sort :
  df_filtrado reversing_argsort [fund_A; fund_A'; fund_B]
              (default_criteria [fund_A; fund_A'; fund_B])
  = [fund_B; fund_A'; fund_A].
Proof. vm_compute. reflexivity. Qed.

(** C4, as stated, fails: [sort_values] is called with the default kind of
    sort, which need not keep equal keys in their order.  With a sort
    that reverses them, [fund_A] and [fund_A'], of equal yield, leave the
    filter in the order [fund_A'], [fund_A]. *)
Lemma filter_sort_is_not_stable :
  ~ (forall (np : Argsort) (df_fii : DataFrame) (c : FilterCriteria),
        StronglySorted
          (fun r1 r2 => fge (DIVIDEND_YIELD r1) (DIVIDEND_YIELD r2) = true)
          (df_filtrado np df_fii c)
        /\ keeps_tie_order df_fii c (df_filtrado np df_fii c)).
Proof.
  intros H.
  destruct (H reversing_argsort [fund_A; fund_A'; fund_B]
              (default_criteria [fund_A; fund_A'; fund_B])) as [_ Hk].
  specialize (Hk (F 8.0)). rewrite ties_with_another_sort in Hk.
  vm_compute in Hk. discriminate.
Qed.

(** C4, as amended: the output of the filter holds the records that pass,
    each as often as in the input, sorted by [DIVIDEND_YIELD] in
    descending order; the order of records of equal yield is left to the
    sort. *)
Theorem filter_sorted_descending (np : Argsort) (df_fii : DataFrame)
  (c : FilterCriteria) :
  StronglySorted
    (fun r1 r2 => fge (DIVIDEND_YIELD r1) (DIVIDEND_YIELD r2) = true)
    (df_filtrado np df_fii c)
  /\ Permutation (filter (mask c) df_fii) (df_filtrado np df_fii c).
Proof.
  split; [apply df_filtrado_sorted|apply df_filtrado_Permutation].
Qed.

(** C10: on a normalised data frame the sliders' initial values keep
    every record: the filter only reorders. *)
Theorem default_criteria_keep_all (np : Argsort) (df_fii : DataFrame) :
  Forall valid_row df_fii ->
  Permutation df_fii (df_filtrado np df_fii (default_criteria df_fii))
  /\ forall r, In r df_fii <->
               In r (df_filtrado np df_fii (default_criteria df_fii)).
Proof.
  intros Hv.
  assert (Hp : Permutation df_fii
                 (df_filtrado np df_fii (default_criteria df_fii))).
  { rewrite <- (filter_all (mask (default_criteria df_fii)) df_fii) at 1;
      [apply df_filtrado_Permutation|].
    intros r Hr. now apply default_criteria_mask. }
  split; [exact Hp|].
  intros r. split; apply Permutation_in; [|symmetry]; exact Hp.
Qed.

(** The scenario under its own initial criteria: all three records, by
    descending yield. *)
Lemma default_criteria_keep_all_witness :
  Forall valid_row scenario
  /\ df_filtrado stable_argsort scenario (default_criteria scenario)
     = [fund_B; fund_A; fund_C]
  /\ Permutation scenario
       (df_filtrado stable_argsort scenario (default_criteria scenario)).
Proof.
  split; [exact scenario_valid|].
  split; [vm_compute; reflexivity|].
  exact (proj1 (default_criteria_keep_all stable_argsort scenario
                  scenario_valid)).
Defined.

(* ================================================================== *)
(** * The per-segment table (C5, C6) *)

(** C5, as stated, fails on a data frame with a record that has no
    segment and a record that has no ticker: the first belongs to no
    summary, the second is not counted.  Whatever the sort, the table is
    the single summary of "Shopping" with a count of 0, while one record
    has that segment and the data frame has two records. *)
Lemma missing_segment_or_ticker_is_not_counted :
  Forall valid_row [fund_no_segment; fund_no_ticker]
  /\ forall np : Argsort,
      analise_segmento np [fund_no_segment; fund_no_ticker]
      = [summary_of "Shopping" [fund_no_segment; fund_no_ticker]]
      /\ FIIs_Contagem
           (summary_of "Shopping" [fund_no_segment; fund_no_ticker]) = 0
      /\ List.length
           (group_rows "Shopping" [fund_no_segment; fund_no_ticker]) = 1
      /\ list_sum (map FIIs_Contagem
                       (analise_segmento
                          np [fund_no_segment; fund_no_ticker]))
         <> List.length [fund_no_segment; fund_no_ticker].
Proof.
  split; [repeat constructor|]. intros np.
  assert (H : analise_segmento np [fund_no_segment; fund_no_ticker]
              = [summary_of "Shopping" [fund_no_segment; fund_no_ticker]]).
  { apply Permutation_length_1_inv.
    exact (analise_segmento_Permutation
             np [fund_no_segment; fund_no_ticker]). }
  split; [exact H|]. split; [reflexivity|]. split; [reflexivity|].
  rewrite H. cbn. discriminate.
Qed.

(** C5, as amended: on a normalised data frame the table has exactly one
    summary per segment that some record has (a record without segment
    belongs to none); the count of a summary is the number of records of
    its segment whose ticker is present, so the counts add up to the
    number of records that have both; each mean is the unweighted
    arithmetic mean of the field over exactly the records of the segment.
    When every record has a segment and a ticker, the count is the
    number of records of the segment, it is at least 1, and the counts
    add up to the size of the data frame. *)
Theorem aggregate_correct (np : Argsort) (df : DataFrame) :
  Forall valid_row df ->
  let out := analise_segmento np df in
  NoDup (map segmento out)
  /\ (forall k, In k (map segmento out)
                <-> exists r, In r df /\ SEGMENTO r = Some k)
  /\ (forall s, In s out ->
        let g := group_rows (segmento s) df in
        FIIs_Contagem s = List.length (filter has_ticker g)
        /\ DY_Medio s = mean (map DIVIDEND_YIELD g)
        /\ P_VP_Medio s = mean (map P_VP g)
        /\ Vacancia_Media s = mean (map VACANCIA_MEDIA g)
        /\ Liquidez_Medio s = mean (map LIQUIDEZ g))
  /\ list_sum (map FIIs_Contagem out)
     = List.length (filter (fun r => grouped r && has_ticker r) df)
  /\ ((forall r, In r df -> grouped r = true /\ has_ticker r = true) ->
      (forall s, In s out ->
         FIIs_Contagem s = List.length (group_rows (segmento s) df)
         /\ 1 <= FIIs_Contagem s)
      /\ list_sum (map FIIs_Contagem out) = List.length df).
Proof.
  intros Hv out.
  pose proof (analise_segmento_Permutation np df) as Hp. fold out in Hp.
  destruct (groupby_agg_spec df) as (Hs & _ & Hc).
  assert (Hin : forall s, In s out ->
             group_rows (segmento s) df <> []
             /\ s = summary_of (segmento s) df).
  { intros s Hs'. apply In_summaries.
    eapply Permutation_in; [symmetry; exact Hp|exact Hs']. }
  assert (Hsum : list_sum (map FIIs_Contagem out)
                 = List.length
                     (filter (fun r => grouped r && has_ticker r) df)).
  { rewrite <- Hc, <- summaries_counts.
    apply Permutation_list_sum, Permutation_map. now symmetry. }
  assert (Hcnt : forall s, In s out ->
             FIIs_Contagem s
             = List.length (filter has_ticker (group_rows (segmento s) df))).
  { intros s Hs'. destruct (Hin s Hs') as [_ E]. now rewrite E at 1. }
  split; [|split; [|split; [|split]]].
  - eapply Permutation_NoDup; [apply Permutation_map; exact Hp|].
    rewrite summaries_segments. now apply sorted_keys_NoDup.
  - intros k. rewrite <- In_segments, <- summaries_segments.
    split; apply Permutation_in, Permutation_map;
      [symmetry|]; exact Hp.
  - intros s Hs' g. split; [now apply Hcnt|].
    destruct (Hin s Hs') as [_ E].
    assert (Hg : forall f : FundRecord -> float,
               (forall r, valid_row r -> isnan (f r) = false) ->
               filter notnan (map f g) = map f g).
    { intros f Hf. apply notnan_all. intros r Hr.
      apply filter_In in Hr. destruct Hr as [Hr _].
      rewrite Forall_forall in Hv. now apply Hf, Hv. }
    rewrite E at 1 2 3 4. cbn [summary_of DY_Medio P_VP_Medio
                                Vacancia_Media Liquidez_Medio].
    fold g. rewrite !Hg by (unfold valid_row; tauto).
    repeat split; reflexivity.
  - exact Hsum.
  - intros Hall. split.
    + intros s Hs'. rewrite (Hcnt s Hs').
      rewrite filter_all.
      * split; [reflexivity|].
        destruct (Hin s Hs') as [Hne _].
        destruct (group_rows (segmento s) df); [congruence|cbn; lia].
      * intros r Hr. apply filter_In in Hr. now apply Hall.
    + rewrite Hsum, filter_all; [reflexivity|].
      intros r Hr. destruct (Hall r Hr) as [-> ->]. reflexivity.
Qed.

(** The table of the scenario: "Shopping" (two records) before
    "Logistics" (one), three records counted. *)
Lemma aggregate_correct_witness :
  Forall valid_row scenario
  /\ analise_segmento stable_argsort scenario
     = [summary_of "Shopping" scenario; summary_of "Logistics" scenario]
  /\ NoDup (map segmento (analise_segmento stable_argsort scenario))
  /\ list_sum (map FIIs_Contagem (analise_segmento stable_argsort scenario))
     = 3.
Proof.
  split; [exact scenario_valid|].
  split; [vm_compute; reflexivity|].
  destruct (aggregate_correct stable_argsort scenario scenario_valid)
    as (Hnd & _ & _ & Hsum & _).
  split; [exact Hnd|exact Hsum].
Defined.

Example table_with_a_stable_sort :
  map segmento (analise_segmento stable_argsort [fund_A; fund_C])
  = ["Logistics"; "Shopping"].
Proof. vm_compute. reflexivity. Qed.

Example table_with_another_sort :
  map segmento (analise_segmento reversing_argsort [fund_A; fund_C])
  = ["Shopping"; "Logistics"].
Proof. vm_compute. reflexivity. Qed.

(** C6, as stated, fails.  The grouping lists the segments in increasing
    order of name, whatever the order of the records, and the sort by
    count sees nothing else: the data frames [fund_A; fund_C] and
    [fund_C; fund_A] give the same table, with two summaries of count 1,
    while "Shopping" appears first in one and "Logistics" in the other.
    No sort places the ties by first appearance for both. *)
Lemma ties_are_not_by_first_appearance :
  ~ exists np : Argsort,
      ties_by_first_appearance
        [fund_A; fund_C] (analise_segmento np [fund_A; fund_C])
      /\ ties_by_first_appearance
           [fund_C; fund_A] (analise_segmento np [fund_C; fund_A]).
Proof.
  intros (np & H1 & H2).
  set (sL := summary_of "Logistics" [fund_A; fund_C]).
  set (sS := summary_of "Shopping" [fund_A; fund_C]).
  assert (E2 : analise_segmento np [fund_C; fund_A]
               = analise_segmento np [fund_A; fund_C]).
  { unfold analise_segmento. f_equal. }
  rewrite E2 in H2.
  assert (Hp : Permutation [sL; sS] (analise_segmento np [fund_A; fund_C]))
    by exact (analise_segmento_Permutation np [fund_A; fund_C]).
  apply Permutation_length_2_inv in Hp. destruct Hp as [Hp|Hp].
  - specialize (H1 [] sL [] sS [] Hp eq_refl).
    vm_compute in H1. lia.
  - specialize (H2 [] sS [] sL [] Hp eq_refl).
    vm_compute in H2. lia.
Qed.

(** C6, as amended: the table is ordered by count, descending; it holds
    the summaries that the grouping lists in increasing order of segment
    name; the order of summaries of equal count is left to the sort. *)
Theorem table_sorted_by_count (np : Argsort) (df : DataFrame) :
  StronglySorted (fun s1 s2 => FIIs_Contagem s2 <= FIIs_Contagem s1)
                 (analise_segmento np df)
  /\ Permutation (map summary (groupby_agg df)) (analise_segmento np df)
  /\ StronglySorted slt (map segmento (map summary (groupby_agg df))).
Proof.
  split; [apply analise_segmento_sorted|].
  split; [apply analise_segmento_Permutation|].
  rewrite summaries_segments. apply groupby_agg_spec.
Qed.

(* ================================================================== *)
(** * Stable sorts *)

Lemma filter_take {A : Type} (P : A -> bool) (l : list A) (ix : list nat) :
  filter P (take l ix)
  = take l (filter (fun i => match nth_error l i with
                             | Some x => P x
                             | None => false
                             end) ix).
Proof.
  induction ix as [|i ix IH]; [reflexivity|].
  rewrite take_cons, filter_app, IH. cbn [filter]. unfold at_index.
  destruct (nth_error l i) as [x|] eqn:E; cbn; [|reflexivity].
  destruct (P x); [|reflexivity].
  rewrite take_cons. unfold at_index. now rewrite E.
Qed.

Lemma equiv_at_map {A K : Type} (leb : K -> K -> bool) (d : K)
  (by_ : A -> K) (l : list A) (i : nat) :
  equiv_at leb d (map by_ l) i
  = match nth_error l i with
    | Some r => leb (by_ r) d && leb d (by_ r)
    | None => false
    end.
Proof.
  unfold equiv_at. rewrite nth_error_map. now destruct (nth_error l i).
Qed.

(** A descending [sort_values] run with a stable sort keeps the rows of
    equivalent keys in their order. *)
Lemma sort_values_desc_stable (np : Argsort) {A K : Type}
  (leb : K -> K -> bool) (isna : K -> bool) (by_ : A -> K)
  (df : list A) (d : K) :
  stable np -> total leb -> transitive leb ->
  (forall r, In r df -> isna (by_ r) = false) ->
  filter (fun r => leb (by_ r) d && leb d (by_ r))
         (sort_values np leb isna by_ false df)
  = filter (fun r => leb (by_ r) d && leb d (by_ r)) df.
Proof.
  intros Hst Htot Htrans Hna. unfold sort_values.
  rewrite nargsort_desc_no_missing.
  2: { intros x Hx. apply in_map_iff in Hx. destruct Hx as (r & <- & Hr).
       now apply Hna. }
  rewrite length_map, take_rev, take_take
    by (apply Forall_rev, seq_bounded).
  rewrite take_rev, take_seq, filter_rev, filter_take.
  rewrite <- (rev_involutive
                (filter (fun r => leb (by_ r) d && leb d (by_ r)) df)).
  f_equal.
  rewrite (filter_ext _ (equiv_at leb d (map by_ (rev df))))
    by (intros i; now rewrite equiv_at_map).
  rewrite <- map_rev, Hst by assumption.
  rewrite (filter_ext _ _ (equiv_at_map leb d by_ (rev df))).
  rewrite <- filter_take, length_map, take_seq.
  apply filter_rev.
Qed.

Section StableInsertion.

Context {K : Type} (leb : K -> K -> bool) (d : K).
Hypothesis leb_transitive : transitive leb.

Let E (p : nat * K) : bool := leb (snd p) d && leb d (snd p).

Lemma filter_insert_stable (p : nat * K) (s : list (nat * K)) :
  filter E (insert leb p s) = filter E (p :: s).
Proof.
  induction s as [|q s IH]; [reflexivity|].
  cbn [insert]. destruct (leb (snd p) (snd q)) eqn:Epq; [reflexivity|].
  cbn [filter] in *. rewrite IH.
  destruct (E p) eqn:Ep, (E q) eqn:Eq; try reflexivity.
  exfalso. unfold E in Ep, Eq.
  apply andb_prop in Ep, Eq. destruct Ep as [Hpd _], Eq as [_ Hdq].
  rewrite (leb_transitive _ _ _ Hpd Hdq) in Epq. discriminate.
Qed.

Lemma filter_insertion_sort_stable (l : list (nat * K)) :
  filter E (insertion_sort leb l) = filter E l.
Proof.
  induction l as [|p l IH]; [reflexivity|].
  cbn [insertion_sort fold_right]. fold (insertion_sort leb l).
  rewrite filter_insert_stable. cbn [filter]. now rewrite IH.
Qed.

Lemma filter_positions (a : list K) (l : list (nat * K)) :
  Forall (fun p => nth_error a (fst p) = Some (snd p)) l ->
  filter (equiv_at leb d a) (map fst l) = map fst (filter E l).
Proof.
  induction 1 as [|p l Hp _ IH]; [reflexivity|].
  cbn [map filter]. unfold equiv_at at 1. rewrite Hp. fold (E p).
  destruct (E p); cbn [map]; now rewrite IH.
Qed.

End StableInsertion.

Lemma stable_argsort_stable : stable stable_argsort.
Proof.
  intros K leb a d _ Htrans. cbn [argsort stable_argsort].
  unfold insertion_argsort.
  rewrite (filter_positions leb d a).
  - rewrite filter_insertion_sort_stable by assumption.
    rewrite <- (filter_positions leb d a)
      by exact (combine_seq_nth_error [] a).
    now rewrite map_fst_combine by now rewrite length_seq.
  - apply (Permutation_Forall (x := combine (seq 0 (List.length a)) a));
      [symmetry; apply insertion_sort_Permutation|].
    exact (combine_seq_nth_error [] a).
Qed.

Lemma feq_np_le (x d : float) :
  isnan x = false -> feq x d = np_le x d && np_le d x.
Proof.
  intros Hx. unfold feq, np_le. rewrite Hx, orb_false_r.
  destruct (isnan d) eqn:Ed; [|now rewrite orb_false_r].
  destruct d; try discriminate. destruct x as [|[]|]; reflexivity.
Qed.

(* ================================================================== *)
(** * More on the filter: stable sorts, monotonicity, the scenario *)

(** X1: run with a stable sort (as [kind='stable'] would ask for), the
    filter keeps the records of equal [DIVIDEND_YIELD] in the order they
    have in the input. *)
Theorem stable_sort_keeps_tie_order (np : Argsort) (df_fii : DataFrame)
  (c : FilterCriteria) :
  stable np -> keeps_tie_order df_fii c (df_filtrado np df_fii c).
Proof.
  intros Hst d. unfold df_filtrado.
  assert (Hna : forall r, In r (filter (mask c) df_fii) ->
                          isnan (DIVIDEND_YIELD r) = false).
  { intros r Hr. apply filter_In in Hr. eapply mask_notnan, Hr. }
  rewrite (filter_ext_in
             (fun r => feq (DIVIDEND_YIELD r) d)
             (fun r => np_le (DIVIDEND_YIELD r) d
                       && np_le d (DIVIDEND_YIELD r))).
  2: { intros r Hr. apply feq_np_le, Hna.
       eapply sort_values_In; exact Hr. }
  rewrite (filter_ext_in
             (fun r => feq (DIVIDEND_YIELD r) d)
             (fun r => np_le (DIVIDEND_YIELD r) d
                       && np_le d (DIVIDEND_YIELD r))
             (filter (mask c) df_fii))
    by (intros r Hr; now apply feq_np_le, Hna).
  apply sort_values_desc_stable;
    [exact Hst|exact np_le_total|exact np_le_transitive|exact Hna].
Qed.

(** The insertion sort that keeps equal keys in their order is stable, and
    [fund_A], [fund_A'] leave the filter in that order. *)
Lemma stable_sort_keeps_tie_order_witness :
  stable stable_argsort
  /\ keeps_tie_order [fund_A; fund_A'; fund_B]
       (default_criteria [fund_A; fund_A'; fund_B])
       (df_filtrado stable_argsort [fund_A; fund_A'; fund_B]
          (default_criteria [fund_A; fund_A'; fund_B])).
Proof.
  split; [exact stable_argsort_stable|].
  exact (stable_sort_keeps_tie_order
           stable_argsort [fund_A; fund_A'; fund_B]
           (default_criteria [fund_A; fund_A'; fund_B])
           stable_argsort_stable).
Defined.

Lemma length_filter_le {A : Type} (p q : A -> bool) (l : list A) :
  (forall a, p a = true -> q a = true) ->
  List.length (filter p l) <= List.length (filter q l).
Proof.
  intros H. induction l as [|a l IH]; cbn; [lia|].
  destruct (p a) eqn:Ep; [rewrite (H a Ep); cbn; lia|].
  destruct (q a); cbn; lia.
Qed.

(** X2 (P3 of the specification): raising [dy_min], all else equal, never
    makes the output of the filter longer. *)
Theorem filter_monotone (np : Argsort) (df_fii : DataFrame)
  (c c' : FilterCriteria) :
  fle (dy_min c) (dy_min c') = true ->
  pvp_max c' = pvp_max c ->
  vacancia_max c' = vacancia_max c ->
  liquidez_min c' = liquidez_min c ->
  List.length (df_filtrado np df_fii c')
  <= List.length (df_filtrado np df_fii c).
Proof.
  intros Hdy Hp Hv Hl.
  rewrite <- (Permutation_length (df_filtrado_Permutation np df_fii c')).
  rewrite <- (Permutation_length (df_filtrado_Permutation np df_fii c)).
  apply length_filter_le. intros r. rewrite !mask_true, Hp, Hv, Hl.
  unfold fge. intros (H1 & H2 & H3 & H4).
  repeat split; try assumption. eapply fle_trans; eassumption.
Qed.

(** Raising [dy_min] from 7 to 9 on the scenario. *)
Lemma filter_monotone_witness :
  List.length
    (df_filtrado stable_argsort scenario
       {| dy_min := F 9; pvp_max := F 1.5;
          vacancia_max := F 10; liquidez_min := F 10000 |})
  <= List.length (df_filtrado stable_argsort scenario scenario_criteria).
Proof.
  apply (filter_monotone stable_argsort scenario scenario_criteria
           {| dy_min := F 9; pvp_max := F 1.5;
              vacancia_max := F 10; liquidez_min := F 10000 |});
    reflexivity.
Defined.

(** X3 (the end-to-end scenario of the specification): whatever the sort,
    the filter returns [B, A] and the table of that result is the single
    summary of "Shopping" with count 2 and means 9.0, 1.05, 3.5 and
    125000. *)
Theorem scenario_end_to_end (np : Argsort) :
  df_filtrado np scenario scenario_criteria = [fund_B; fund_A]
  /\ analise_segmento np [fund_B; fund_A]
     = [ {| segmento := "Shopping"; FIIs_Contagem := 2;
            DY_Medio := F 9.0; P_VP_Medio := F 1.05;
            Vacancia_Media := F 3.5; Liquidez_Medio := F 125000 |} ].
Proof.
  split.
  - pose proof (df_filtrado_Permutation np scenario scenario_criteria) as Hp.
    pose proof (df_filtrado_sorted np scenario scenario_criteria) as Hs.
    change (filter (mask scenario_criteria) scenario)
      with [fund_A; fund_B] in Hp.
    apply Permutation_length_2_inv in Hp. destruct Hp as [Hp|Hp];
      [|exact Hp].
    rewrite Hp in Hs. apply StronglySorted_inv in Hs.
    destruct Hs as [_ Hs]. apply Forall_inv in Hs.
    vm_compute in Hs. discriminate.
  - apply Permutation_length_1_inv.
    exact (analise_segmento_Permutation np [fund_B; fund_A]).
Qed.

(* ================================================================== *)
(** * The detail panel (X5 to X8) *)

Lemma filter_first {A : Type} (p : A -> bool) (l : list A) (r : A)
  (rest : list A) :
  filter p l = r :: rest ->
  exists before after,
    l = before ++ r :: after
    /\ (forall x, In x before -> p x = false)
    /\ p r = true.
Proof.
  induction l as [|a l IH]; cbn; [discriminate|].
  destruct (p a) eqn:Ea.
  - intros [= -> _]. exists [], l. repeat split; [intros x []|exact Ea].
  - intros H. destruct (IH H) as (before & after & -> & Hb & Hr).
    exists (a :: before), after. repeat split; [|exact Hr].
    intros x [<-|Hx]; [exact Ea|now apply Hb].
Qed.

Lemma text_eqb_Some (a : option string) (t : string) :
  text_eqb a (Some t) = true <-> a = Some t.
Proof.
  destruct a as [x|]; cbn; [|split; discriminate].
  rewrite String.eqb_eq. split; congruence.
Qed.

Lemma text_eqb_None (a : option string) : text_eqb a None = false.
Proof. now destruct a. Qed.

Lemma text_eqb_has_segment (k : string) (r : FundRecord) :
  text_eqb (SEGMENTO r) (Some k) = has_segment k r.
Proof. unfold has_segment. now destruct (SEGMENTO r). Qed.

(** X5: every ticker offered by the select box can be shown: for a
    choice other than the first option, the panel is built from the first
    row of [df_filtrado] that has this ticker, and [iloc[0]] does not
    raise. *)
Theorem selected_ticker_is_found (df_filtrado : DataFrame) (t : string) :
  In (Some t) (selectbox_options df_filtrado) ->
  t <> "Selecione..." ->
  exists d before after,
    analise_detalhada df_filtrado (Some t) = Return (Comparacao d)
    /\ df_filtrado = before ++ fii_data d :: after
    /\ TICKER (fii_data d) = Some t
    /\ (forall r, In r before -> TICKER r <> Some t)
    /\ segmento_selecionado d = SEGMENTO (fii_data d).
Proof.
  intros Hin Hne.
  assert (Hsel : text_eqb (Some t) selecione = false).
  { cbn. now apply String.eqb_neq. }
  destruct Hin as [Hin|Hin]; [unfold selecione in Hin; congruence|].
  apply in_map_iff in Hin. destruct Hin as (r0 & Hr0 & Hin0).
  unfold analise_detalhada. rewrite Hsel. cbn [negb].
  destruct (filter (fun r => text_eqb (TICKER r) (Some t)) df_filtrado)
    as [|r rest] eqn:Ef.
  - exfalso.
    assert (H : In r0 (filter (fun r => text_eqb (TICKER r) (Some t))
                              df_filtrado)).
    { apply filter_In. split; [exact Hin0|]. now apply text_eqb_Some. }
    now rewrite Ef in H.
  - destruct (filter_first _ _ _ _ Ef) as (before & after & E & Hb & Hr).
    cbn [iloc0 bind].
    eexists; exists before, after. split; [reflexivity|].
    cbn [fii_data segmento_selecionado].
    split; [exact E|]. split; [now apply text_eqb_Some|].
    split; [|reflexivity].
    intros x Hx Hc. apply Hb in Hx. apply text_eqb_Some in Hc. congruence.
Qed.

(** The scenario after its filter: the choice "A". *)
Lemma selected_ticker_is_found_witness :
  exists d before after,
    analise_detalhada [fund_B; fund_A] (Some "A") = Return (Comparacao d)
    /\ [fund_B; fund_A] = before ++ fii_data d :: after
    /\ TICKER (fii_data d) = Some "A"
    /\ (forall r, In r before -> TICKER r <> Some "A")
    /\ segmento_selecionado d = SEGMENTO (fii_data d).
Proof.
  apply (selected_ticker_is_found [fund_B; fund_A] "A").
  - right. right. now left.
  - discriminate.
Defined.

(** X6: the select box offers a missing ticker exactly when a row of
    [df_filtrado] has none, and choosing it raises [IndexError]: no row
    equals a missing value, and [iloc[0]] is taken of an empty frame. *)
Theorem missing_ticker_choice_raises (df_filtrado : DataFrame) :
  (In None (selectbox_options df_filtrado)
   <-> exists r, In r df_filtrado /\ TICKER r = None)
  /\ analise_detalhada df_filtrado None
     = Raise (IndexError "single positional indexer is out-of-bounds").
Proof.
  split.
  - unfold selectbox_options, selecione. cbn [In]. rewrite in_map_iff.
    split.
    + intros [H|(r & Hr & Hin)]; [discriminate|]. now exists r.
    + intros (r & Hin & Hr). right. now exists r.
  - unfold analise_detalhada. cbn [text_eqb negb].
    rewrite filter_none; [reflexivity|].
    intros r _. apply text_eqb_None.
Qed.

(** X7: the comparison set of the chosen fund.  When the fund has a
    segment, the set is the rows of [df_filtrado] of that segment, in
    their order, the fund among them; the per-segment table of the same
    frame has a row for the segment, and its count is the number of rows
    of the set that have a ticker.  When the fund has no segment, the set
    is empty and the reference line, the mean of no value, is missing. *)
Theorem comparison_set_is_the_segment (np : Argsort)
  (df_filtrado : DataFrame) (fii_selecionado : option string)
  (d : detalhe) :
  analise_detalhada df_filtrado fii_selecionado = Return (Comparacao d) ->
  (forall k,
      SEGMENTO (fii_data d) = Some k ->
      df_comparativo d = group_rows k df_filtrado
      /\ In (fii_data d) (df_comparativo d)
      /\ exists s,
          In s (analise_segmento np df_filtrado)
          /\ segmento s = k
          /\ FIIs_Contagem s
             = List.length (filter has_ticker (df_comparativo d)))
  /\ (SEGMENTO (fii_data d) = None ->
      df_comparativo d = [] /\ dy_medio_do_segmento d = NaN).
Proof.
  unfold analise_detalhada.
  destruct (negb (text_eqb fii_selecionado selecione)); [|discriminate].
  destruct (filter (fun r => text_eqb (TICKER r) fii_selecionado)
                   df_filtrado) as [|r rest] eqn:Ef; [discriminate|].
  cbn [iloc0 bind]. intros [= <-].
  cbn [fii_data df_comparativo dy_medio_do_segmento].
  assert (Hin : In r df_filtrado).
  { assert (H : In r (r :: rest)) by now left.
    rewrite <- Ef in H. now apply filter_In in H. }
  split.
  - intros k Hk. rewrite Hk.
    assert (Hg : filter (fun r0 => text_eqb (SEGMENTO r0) (Some k))
                        df_filtrado
                 = group_rows k df_filtrado).
    { apply filter_ext. intros r0. apply text_eqb_has_segment. }
    rewrite Hg.
    assert (Hr : In r (group_rows k df_filtrado)).
    { apply filter_In. split; [exact Hin|].
      rewrite <- text_eqb_has_segment. now apply text_eqb_Some. }
    split; [reflexivity|]. split; [exact Hr|].
    exists (summary_of k df_filtrado). split; [|split; reflexivity].
    eapply Permutation_in; [apply analise_segmento_Permutation|].
    apply In_summaries. cbn [summary_of segmento].
    split; [|reflexivity]. intros E. now rewrite E in Hr.
  - intros Hk. rewrite Hk.
    rewrite filter_none by (intros r0 _; apply text_eqb_None).
    split; reflexivity.
Qed.

(** The choice "A" in the scenario after its filter. *)
Lemma comparison_set_is_the_segment_witness :
  exists d,
    analise_detalhada [fund_B; fund_A] (Some "A") = Return (Comparacao d)
    /\ df_comparativo d = [fund_B; fund_A]
    /\ exists s,
        In s (analise_segmento stable_argsort [fund_B; fund_A])
        /\ segmento s = "Shopping"
        /\ FIIs_Contagem s = 2.
Proof.
  eexists. split; [reflexivity|].
  destruct (comparison_set_is_the_segment
              stable_argsort [fund_B; fund_A] (Some "A") _ eq_refl)
    as [H _].
  destruct (H "Shopping" eq_refl) as (E & _ & s & Hs & Hk & Hn).
  split; [exact E|]. exists s. split; [exact Hs|]. split; [exact Hk|].
  rewrite Hn. reflexivity.
Defined.

Lemma upsert_mean_pvp (k : string) (r : FundRecord)
  (groups : list (string * group_acc)) :
  map (fun g => (fst g, acc_pvp (snd g))) (upsert k r groups)
  = upsert_mean k (P_VP r) (map (fun g => (fst g, acc_pvp (snd g))) groups).
Proof.
  induction groups as [|[k' a] rest IH]; cbn; [reflexivity|].
  destruct (String.compare k k'); cbn; [reflexivity|reflexivity|].
  now rewrite IH.
Qed.

(** The pass of line 212 keeps what the pass of the table keeps for
    [P_VP]. *)
Lemma analise_pvp_groupby_agg (df : DataFrame) :
  analise_pvp df
  = map (fun g => (fst g, mean_result (acc_pvp (snd g)))) (groupby_agg df).
Proof.
  unfold analise_pvp, groupby_agg.
  rewrite <- (map_map (fun g : string * group_acc =>
                         (fst g, acc_pvp (snd g)))
                      (fun g : string * mean_acc =>
                         (fst g, mean_result (snd g)))).
  f_equal.
  assert (H : forall groups,
             fold_left (fun gs r => match SEGMENTO r with
                                    | Some k => upsert_mean k (P_VP r) gs
                                    | None => gs
                                    end) df
                       (map (fun g => (fst g, acc_pvp (snd g))) groups)
             = map (fun g => (fst g, acc_pvp (snd g)))
                   (fold_left (fun gs r => match SEGMENTO r with
                                           | Some k => upsert k r gs
                                           | None => gs
                                           end) df groups)).
  { induction df as [|r df IH]; intros groups; cbn; [reflexivity|].
    destruct (SEGMENTO r) as [k|]; [|apply IH].
    rewrite <- upsert_mean_pvp. apply IH. }
  exact (H []).
Qed.

(** X8: the bars of "P/VP medio por segmento" are the [P_VP_Medio] column
    of the per-segment table of the same frame: one bar per segment that
    some row has, in increasing order of the segment's name, its height
    the mean of [P_VP] over exactly the rows of the segment. *)
Theorem bars_are_the_table_column (np : Argsort) (df : DataFrame) :
  StronglySorted slt (map fst (analise_pvp df))
  /\ (forall k m,
         In (k, m) (analise_pvp df)
         <-> group_rows k df <> []
             /\ m = series_mean (map P_VP (group_rows k df)))
  /\ (forall k m,
         In (k, m) (analise_pvp df)
         <-> exists s, In s (analise_segmento np df)
                       /\ segmento s = k /\ P_VP_Medio s = m).
Proof.
  rewrite analise_pvp_groupby_agg.
  assert (Hbar : forall k m,
             In (k, m) (map (fun g => (fst g, mean_result (acc_pvp (snd g))))
                            (groupby_agg df))
             <-> exists s, In s (map summary (groupby_agg df))
                           /\ segmento s = k /\ P_VP_Medio s = m).
  { intros k m. rewrite in_map_iff. split.
    - intros (g & [= <- <-] & Hg). exists (summary g).
      split; [now apply in_map|split; reflexivity].
    - intros (s & Hs & <- & <-). apply in_map_iff in Hs.
      destruct Hs as (g & <- & Hg). exists g. split; [reflexivity|exact Hg]. }
  split; [|split].
  - rewrite map_map. cbn [fst]. apply groupby_agg_spec.
  - intros k m. rewrite Hbar. split.
    + intros (s & Hs & <- & <-). apply In_summaries in Hs.
      destruct Hs as [Hne E]. split; [exact Hne|]. now rewrite E at 1.
    + intros [Hne ->]. exists (summary_of k df).
      split; [|split; reflexivity].
      apply In_summaries. now split.
  - intros k m. rewrite Hbar. split; intros (s & Hs & H);
      exists s; (split; [|exact H]);
      (eapply Permutation_in; [|exact Hs]);
      [|symmetry]; apply analise_segmento_Permutation.
Qed.

(* ================================================================== *)
(** * The sidebar and the metrics (X9, X10) *)






Lemma df_filtrado_length (np : Argsort) (df_fii : DataFrame)
  (c : FilterCriteria) :
  List.length (df_filtrado np df_fii c) <= List.length df_fii.
Proof.
  rewrite <- (Permutation_length (df_filtrado_Permutation np df_fii c)).
  apply filter_length_le.
Qed.

(** X10: the key metrics agree with the filter.  The number of funds
    found is the number of rows of the data frame that pass the four
    comparisons, and so at most the total; the two means read "N/A"
    exactly when no fund is found, that is, when no row passes; and with
    the sliders where the page first puts them, on a normalised data
    frame, every fund is found. *)
Theorem metrics_agree_with_filter (np : Argsort) (df_fii : DataFrame)
  (c : FilterCriteria) :
  fiis_encontrados (metricas_chave df_fii (df_filtrado np df_fii c))
  = List.length (filter (mask c) df_fii)
  /\ fiis_encontrados (metricas_chave df_fii (df_filtrado np df_fii c))
     <= totais (metricas_chave df_fii (df_filtrado np df_fii c))
  /\ (fiis_encontrados (metricas_chave df_fii (df_filtrado np df_fii c)) = 0
      <-> media_p_vp (metricas_chave df_fii (df_filtrado np df_fii c)) = None
          /\ media_dy (metricas_chave df_fii (df_filtrado np df_fii c))
             = None)
  /\ (fiis_encontrados (metricas_chave df_fii (df_filtrado np df_fii c)) = 0
      <-> forall r, In r df_fii -> mask c r = false)
  /\ (Forall valid_row df_fii ->
      fiis_encontrados
        (metricas_chave df_fii
           (df_filtrado np df_fii (default_criteria df_fii)))
      = totais
          (metricas_chave df_fii
             (df_filtrado np df_fii (default_criteria df_fii)))).
Proof.
  unfold metricas_chave.
  cbn [fiis_encontrados totais media_p_vp media_dy].
  assert (Hlen : List.length (df_filtrado np df_fii c)
                 = List.length (filter (mask c) df_fii)).
  { symmetry. apply Permutation_length, df_filtrado_Permutation. }
  split; [exact Hlen|]. split; [apply df_filtrado_length|].
  split; [|split].
  - destruct (df_filtrado np df_fii c) as [|r0 out]; cbn.
    + split; [tauto|reflexivity].
    + split; [discriminate|intros [? _]; discriminate].
  - rewrite Hlen. split.
    + intros H r Hr. destruct (mask c r) eqn:E; [|reflexivity].
      assert (Hin : In r (filter (mask c) df_fii))
        by (apply filter_In; now split).
      destruct (filter (mask c) df_fii); [destruct Hin|discriminate].
    + intros H. now rewrite filter_none.
  - intros Hv.
    rewrite <- (Permutation_length
                  (df_filtrado_Permutation np df_fii
                     (default_criteria df_fii))).
    rewrite filter_all; [reflexivity|].
    intros r Hr. now apply default_criteria_mask.
Qed.

(* ================================================================== *)
(** * The normaliser, row by row (X13) *)

Lemma filter_filter {A : Type} (p q : A -> bool) (l : list A) :
  filter q (filter p l) = filter (fun a => p a && q a) l.
Proof.
  induction l as [|a l IH]; [reflexivity|].
  cbn. destruct (p a); cbn; [destruct (q a)|]; now rewrite IH.
Qed.

Lemma convert_row_Return (r : RawRow) (rec : FundRecord) :
  convert_row r = Return rec <->
  exists dy vac ffo cap,
    parse_percent (raw_DIVIDEND_YIELD r) = Return dy
    /\ parse_percent (raw_VACANCIA_MEDIA r) = Return vac
    /\ parse_percent (raw_FFO_YIELD r) = Return ffo
    /\ parse_percent (raw_CAP_RATE r) = Return cap
    /\ rec = converted r dy vac ffo cap.
Proof.
  unfold convert_row.
  destruct (parse_percent (raw_DIVIDEND_YIELD r)) as [|dy]; cbn.
  { split; [discriminate|]. intros (?&?&?&?&H&_); discriminate. }
  destruct (parse_percent (raw_VACANCIA_MEDIA r)) as [|vac]; cbn.
  { split; [discriminate|]. intros (?&?&?&?&_&H&_); discriminate. }
  destruct (parse_percent (raw_FFO_YIELD r)) as [|ffo]; cbn.
  { split; [discriminate|]. intros (?&?&?&?&_&_&H&_); discriminate. }
  destruct (parse_percent (raw_CAP_RATE r)) as [|cap]; cbn.
  { split; [discriminate|]. intros (?&?&?&?&_&_&_&H&_); discriminate. }
  split.
  - intros [= <-]. now exists dy, vac, ffo, cap.
  - intros (?&?&?&?&[= <-]&[= <-]&[= <-]&[= <-]&->). reflexivity.
Qed.

(** The columns converted one after the other are the rows converted one
    after the other. *)
Lemma columns_are_rows (df : list RawRow) (recs : DataFrame) :
  (exists dy vac ffo cap,
      mapM parse_percent (map raw_DIVIDEND_YIELD df) = Return dy
      /\ mapM parse_percent (map raw_VACANCIA_MEDIA df) = Return vac
      /\ mapM parse_percent (map raw_FFO_YIELD df) = Return ffo
      /\ mapM parse_percent (map raw_CAP_RATE df) = Return cap
      /\ recs = assemble df dy vac ffo cap)
  <-> mapM convert_row df = Return recs.
Proof.
  revert recs. induction df as [|r df IH]; intros recs.
  - cbn. split.
    + intros (?&?&?&?&_&_&_&_&->). reflexivity.
    + intros [= <-]. now exists [], [], [], [].
  - cbn [map mapM].
    destruct (parse_percent (raw_DIVIDEND_YIELD r)) as [e1|a] eqn:E1.
    { cbn. split; [intros (?&?&?&?&H&_); discriminate|].
      unfold convert_row. rewrite E1. discriminate. }
    destruct (parse_percent (raw_VACANCIA_MEDIA r)) as [e2|b] eqn:E2.
    { cbn. split; [intros (?&?&?&?&_&H&_); discriminate|].
      unfold convert_row. rewrite E1, E2. discriminate. }
    destruct (parse_percent (raw_FFO_YIELD r)) as [e3|c] eqn:E3.
    { cbn. split; [intros (?&?&?&?&_&_&H&_); discriminate|].
      unfold convert_row. rewrite E1, E2, E3. discriminate. }
    destruct (parse_percent (raw_CAP_RATE r)) as [e4|d] eqn:E4.
    { cbn. split; [intros (?&?&?&?&_&_&_&H&_); discriminate|].
      unfold convert_row. rewrite E1, E2, E3, E4. discriminate. }
    assert (Er : convert_row r = Return (converted r a b c d))
      by (unfold convert_row; now rewrite E1, E2, E3, E4).
    rewrite Er. cbn [bind].
    split.
    + intros (dy & vac & ffo & cap & H1 & H2 & H3 & H4 & ->).
      destruct (mapM parse_percent (map raw_DIVIDEND_YIELD df))
        as [|dy'] eqn:D1; [discriminate|].
      destruct (mapM parse_percent (map raw_VACANCIA_MEDIA df))
        as [|vac'] eqn:D2; [discriminate|].
      destruct (mapM parse_percent (map raw_FFO_YIELD df))
        as [|ffo'] eqn:D3; [discriminate|].
      destruct (mapM parse_percent (map raw_CAP_RATE df))
        as [|cap'] eqn:D4; [discriminate|].
      cbn in H1, H2, H3, H4.
      injection H1 as <-. injection H2 as <-.
      injection H3 as <-. injection H4 as <-.
      cbn [assemble].
      rewrite (proj1 (IH (assemble df dy' vac' ffo' cap')));
        [reflexivity|].
      now exists dy', vac', ffo', cap'.
    + destruct (mapM convert_row df) as [|recs'] eqn:Em; [discriminate|].
      cbn. intros [= <-].
      destruct (proj2 (IH recs') eq_refl)
        as (dy & vac & ffo & cap & H1 & H2 & H3 & H4 & ->).
      exists (a :: dy), (b :: vac), (c :: ffo), (d :: cap).
      rewrite H1, H2, H3, H4. cbn. repeat split; reflexivity.
Qed.

(** X13: when the normaliser returns, what it returns is the table
    converted row by row, in the order of the table, without the rows that
    miss a critical metric or have no positive liquidity; and it returns
    exactly when every row can be converted.  So no row is added, and the
    columns it does not convert are carried over unchanged. *)
Theorem normalize_row_by_row (df : list RawRow) (out : DataFrame) :
  (normalize df = Return out
   <-> exists recs,
        Forall2 (fun r rec => convert_row r = Return rec) df recs
        /\ out = filter kept recs)
  /\ (normalize df = Return out ->
      List.length out <= List.length df
      /\ forall rec, In rec out ->
           exists r, In r df
                     /\ TICKER rec = raw_TICKER r
                     /\ SEGMENTO rec = raw_SEGMENTO r
                     /\ COTACAO rec = raw_COTACAO r
                     /\ VALOR_MERCADO rec = raw_VALOR_MERCADO r
                     /\ QTD_IMOVEIS rec = raw_QTD_IMOVEIS r
                     /\ PRECO_M2 rec = raw_PRECO_M2 r
                     /\ ALUGUEL_M2 rec = raw_ALUGUEL_M2 r).
Proof.
  assert (H : normalize df = Return out
              <-> exists recs,
                   Forall2 (fun r rec => convert_row r = Return rec) df recs
                   /\ out = filter kept recs).
  { rewrite normalize_Return. split.
    - intros (dy & vac & ffo & cap & H1 & H2 & H3 & H4 & ->).
      exists (assemble df dy vac ffo cap). split.
      + apply mapM_Return, columns_are_rows.
        now exists dy, vac, ffo, cap.
      + unfold dropna. apply filter_filter.
    - intros (recs & Hrecs & ->).
      apply mapM_Return, columns_are_rows in Hrecs.
      destruct Hrecs as (dy & vac & ffo & cap & H1 & H2 & H3 & H4 & ->).
      exists dy, vac, ffo, cap. repeat split; try assumption.
      unfold dropna. symmetry. apply filter_filter. }
  split; [exact H|].
  intros Hn. apply H in Hn. destruct Hn as (recs & Hrecs & ->).
  split.
  - rewrite (Forall2_length Hrecs). apply filter_length_le.
  - intros rec Hrec. apply filter_In in Hrec. destruct Hrec as [Hrec _].
    clear H. induction Hrecs as [|r rec' df recs Hr _ IH]; [destruct Hrec|].
    destruct Hrec as [<-|Hrec].
    + exists r. split; [now left|].
      apply convert_row_Return in Hr.
      destruct Hr as (dy & vac & ffo & cap & _ & _ & _ & _ & ->).
      repeat split; reflexivity.
    + destruct (IH Hrec) as (r0 & Hin & Hcols).
      exists r0. split; [now right|exact Hcols].
Qed.

(* ================================================================== *)
(** * How the normaliser fails (X14) *)







